(** * Medici: the [Book] facade and the query compiler

    A shallow embedding of [src/Book.ts] and [src/helper/parseQuery.ts].

    - JavaScript numbers are IEEE 754 binary64 values: Rocq's primitive
      [float].
    - JavaScript strings are [string]s, read as sequences of code units in
      the Latin-1 range.
    - A JavaScript object used as a record of caller-supplied properties
      (the query) is an association list in enumeration order; an object
      built as a map (the filter document, the lock collection) is a
      [gmap].
    - Code that may throw returns an [Outcome].
    - What lives outside the two source files (JavaScript built-ins, the
      document store, the sibling helper modules) is collected in type
      classes, or modelled from the specification where a claim is about
      it. *)

From Stdlib Require Import ZArith String Ascii DecimalString.
From Stdlib Require Uint63.
From Stdlib Require Import Floats.PrimFloat Floats.FloatOps Floats.SpecFloat Floats.FloatAxioms.
From stdpp Require Import base option list gmap strings.

Local Open Scope string_scope.

(** ** Outcomes *)

Inductive Error :=
| BookConstructorError (message : string)
| JournalNotFoundError
| TypeError
| RangeError
| BSONTypeError
| CastError
| InvalidDateError
| InvalidAccountError
| JournalAlreadyVoidedError
| StoreError.

Inductive Outcome (A : Type) :=
| Returns (a : A)
| Throws (e : Error).
Arguments Returns {A} a.
Arguments Throws {A} e.

#[global] Instance Outcome_ret : MRet Outcome := fun A a => Returns a.

#[global] Instance Outcome_bind : MBind Outcome := fun A B k m =>
  match m with
  | Returns a => k a
  | Throws e => Throws e
  end.

Fixpoint foldM {A B} (step : B → A → Outcome B) (l : list A) (b : B) : Outcome B :=
  match l with
  | [] => Returns b
  | a :: l' => b' ← step b a; foldM step l' b'
  end.

(** ** JavaScript numbers and strings *)

Module Js.

Abbreviation number := float.

Definition isNaN (x : number) : bool := negb (PrimFloat.eqb x x).

(** [ToBoolean] on a number: false for [+0], [-0] and [NaN]. *)
Definition truthy_number (x : number) : bool :=
  negb (isNaN x) && negb (PrimFloat.eqb x 0%float).

(** [Number.isInteger]: finite, with no fractional part. *)
Definition Number_isInteger (x : number) : bool :=
  match Prim2SF x with
  | S754_zero _ => true
  | S754_finite _ m e => (0 <=? e)%Z || (Z.pos m mod 2 ^ (- e) =? 0)%Z
  | S754_infinity _ | S754_nan => false
  end.

(** The non-negative integer a number denotes, when it denotes one (what
    a document count such as [skip] has to be). *)
Definition to_count (x : number) : option N :=
  match Prim2SF x with
  | S754_zero _ => Some 0%N
  | S754_finite false m e =>
      if (0 <=? e)%Z then Some (Z.to_N (Z.pos m * 2 ^ e))
      else if (Z.pos m mod 2 ^ (- e) =? 0)%Z then Some (Z.to_N (Z.pos m / 2 ^ (- e)))
      else None
  | _ => None
  end.

(** [x === y] on numbers, except that [NaN] is the same as [NaN]
    (SameValueZero). *)
Definition same_number (x y : number) : bool :=
  PrimFloat.eqb x y || (isNaN x && isNaN y).

(** [WhiteSpace] and [LineTerminator] code units below U+0100. *)
Definition isWhiteSpace (c : ascii) : bool :=
  match nat_of_ascii c with
  | 9 | 10 | 11 | 12 | 13 | 32 | 160 => true
  | _ => false
  end.

Fixpoint trimStart (s : list ascii) : list ascii :=
  match s with
  | [] => []
  | c :: s' => if isWhiteSpace c then trimStart s' else s
  end.

Definition trimEnd (s : list ascii) : list ascii := rev (trimStart (rev s)).

(** [String.prototype.trim] *)
Definition trim (s : string) : string :=
  string_of_list_ascii (trimEnd (trimStart (list_ascii_of_string s))).

(** Values a caller can hand to a function that checks them with
    [typeof]. *)
Inductive any :=
| Undefined
| Null
| Boolean (b : bool)
| Number (n : number)
| Str (s : string)
| Object.

Definition typeof (v : any) : string :=
  match v with
  | Undefined => "undefined"
  | Null => "object"
  | Boolean _ => "boolean"
  | Number _ => "number"
  | Str _ => "string"
  | Object => "object"
  end.

(** [v != null] *)
Definition not_nullish (v : any) : bool :=
  match v with
  | Undefined | Null => false
  | _ => true
  end.

(** The string a value is, once [typeof] has said it is one. *)
Definition as_string (v : any) : string :=
  match v with
  | Str s => s
  | _ => ""
  end.

(** The number a value is, once [typeof] has said it is one. *)
Definition as_number (v : any) : number :=
  match v with
  | Number n => n
  | _ => PrimFloat.nan
  end.

End Js.

(** ** Book *)

Record Book := {
  name : string;
  precision : Js.number;
  maxAccountPath : Js.number;
  balanceSnapshotSec : Js.number;
}.

Record BookOptions := {
  opt_precision : Js.any;
  opt_maxAccountPath : Js.any;
  opt_balanceSnapshotSec : Js.any;
}.

(** [options = {}] *)
Definition no_options : BookOptions :=
  {| opt_precision := Js.Undefined;
     opt_maxAccountPath := Js.Undefined;
     opt_balanceSnapshotSec := Js.Undefined |}.

(** [Book.constructor] (Book.ts, lines 18-42): the fields are assigned
    first, then checked in the order name, precision, maxAccountPath,
    balanceSnapshotSec. *)
Definition Book_constructor (name : Js.any) (options : BookOptions) : Outcome Book :=
  let this_name := name in
  let this_precision :=
    if Js.not_nullish (opt_precision options) then opt_precision options
    else Js.Number 8%float in
  let this_maxAccountPath :=
    if Js.not_nullish (opt_maxAccountPath options) then opt_maxAccountPath options
    else Js.Number 3%float in
  let this_balanceSnapshotSec :=
    if Js.not_nullish (opt_balanceSnapshotSec options) then opt_balanceSnapshotSec options
    else Js.Number (24 * 60 * 60)%float in
  if negb (String.eqb (Js.typeof this_name) "string")
     || (String.length (Js.trim (Js.as_string this_name)) =? 0)%nat
  then Throws (BookConstructorError "Invalid value for name provided.")
  else if negb (String.eqb (Js.typeof this_precision) "number")
          || negb (Js.Number_isInteger (Js.as_number this_precision))
          || PrimFloat.ltb (Js.as_number this_precision) 0%float
  then Throws (BookConstructorError "Invalid value for precision provided.")
  else if negb (String.eqb (Js.typeof this_maxAccountPath) "number")
          || negb (Js.Number_isInteger (Js.as_number this_maxAccountPath))
          || PrimFloat.ltb (Js.as_number this_maxAccountPath) 0%float
  then Throws (BookConstructorError "Invalid value for maxAccountPath provided.")
  else if negb (String.eqb (Js.typeof this_balanceSnapshotSec) "number")
          || PrimFloat.ltb (Js.as_number this_balanceSnapshotSec) 0%float
  then Throws (BookConstructorError "Invalid value for balanceSnapshotSec provided.")
  else Returns {| name := Js.as_string this_name;
                  precision := Js.as_number this_precision;
                  maxAccountPath := Js.as_number this_maxAccountPath;
                  balanceSnapshotSec := Js.as_number this_balanceSnapshotSec |}.

(** ** Values, queries and filter documents *)

(** A [Date] object: its time value in milliseconds since the epoch. *)
Record Date := mkDate { getTime : Js.number }.

(** A store identifier ([Types.ObjectId]), by its hexadecimal form. *)
Record ObjectId := mkObjectId { toHexString : string }.

#[global] Instance ObjectId_eq_dec : EqDecision ObjectId.
Proof. solve_decision. Defined.

(** What a property of a query may hold ([IParseQuery]):
    [string[] | number | string | Date | boolean | Types.ObjectId]. *)
Inductive Value :=
| VString (s : string)
| VNumber (n : Js.number)
| VBoolean (b : bool)
| VDate (d : Date)
| VObjectId (o : ObjectId)
| VStrings (l : list string).

(** [ToBoolean]: the values of object type are all true. *)
Definition truthy (v : Value) : bool :=
  match v with
  | VString s => negb (String.length s =? 0)%nat
  | VNumber n => Js.truthy_number n
  | VBoolean b => b
  | VDate _ | VObjectId _ | VStrings _ => true
  end.

(** A property read [o.k] used as a condition: an absent property reads
    [undefined], which is false. *)
Definition truthy_opt (v : option Value) : bool :=
  match v with
  | Some v => truthy v
  | None => false
  end.

Definition is_object (v : Value) : bool :=
  match v with
  | VDate _ | VObjectId _ | VStrings _ => true
  | VString _ | VNumber _ | VBoolean _ => false
  end.

(** A query object: its own enumerable properties, in the order
    [Object.entries] lists them; property names are pairwise different. *)
Abbreviation Query := (list (string * Value)).

(** [query.k] *)
Fixpoint get (query : Query) (k : string) : option Value :=
  match query with
  | [] => None
  | (k', v) :: query' => if decide (k' = k) then Some v else get query' k
  end.

(** [delete query.k] *)
Definition delete_property (k : string) (query : Query) : Query :=
  filter (fun kv => kv.1 ≠ k) query.

Definition keys (query : Query) : list string := query.*1.

(** A value in a filter document handed to the store.  [FValue] is a
    value taken from the query; [FObject] is an object literal built by
    the compiler or a helper; [FArray] an array built by a helper;
    [FAssigned base fields] is the object [base] (a value of object type
    or an array) after the properties [fields] were assigned to it.
    The properties of an object are kept as a finite map, by name: the
    order in which the code added them, which the store sees in an
    embedded document, is not represented. *)
#[warnings="-register-all"]
Inductive FilterValue :=
| FValue (v : Value)
| FObject (fields : gmap string FilterValue)
| FArray (items : list FilterValue)
| FAssigned (base : FilterValue) (fields : gmap string FilterValue).

Abbreviation FilterQuery := (gmap string FilterValue).

(** [ToBoolean] of a property of the filter. *)
Definition filter_truthy (v : option FilterValue) : bool :=
  match v with
  | None => false
  | Some (FValue v) => truthy v
  | Some _ => true
  end.

(** [target[key] = value] in strict mode: a property is added to an
    object, and assigning to a property of a primitive value throws. *)
Definition assign (target : FilterValue) (key : string) (value : FilterValue) : Outcome FilterValue :=
  match target with
  | FObject fields => Returns (FObject (<[key := value]> fields))
  | FAssigned base fields => Returns (FAssigned base (<[key := value]> fields))
  | FArray items => Returns (FAssigned target {[key := value]})
  | FValue v =>
      if is_object v then Returns (FAssigned target {[key := value]})
      else Throws TypeError
  end.

(** ** What the two source files import *)

(** JavaScript built-ins and the identifier constructor of the store
    driver.  [ObjectId_new s] is [new Types.ObjectId(s)], [None] when it
    throws; [toFixed x digits] is [x.toFixed(digits)], [None] when it
    throws a [RangeError]; [ToString] and [StringToNumber] are the
    conversions of the language. *)
Class Builtins := {
  Date_parse : string → Js.number;
  ObjectId_new : string → option ObjectId;
  toFixed : Js.number → Js.number → option string;
  parseFloat : string → Js.number;
  ToString : Value → string;
  StringToNumber : string → Js.number;
}.

(** [models/transaction]: which names are columns of a transaction, and
    which of them hold store identifiers.  The schema is not among the
    sources; the functions of this file take it as given. *)
Class TransactionSchema := {
  isValidTransactionKey : string → bool;
  isTransactionObjectIdKey : string → bool;
}.

(** [helper/parseAccountField]: the part of the filter that selects the
    accounts.  It is not among the sources; the functions of this file
    take it as given. *)
Class AccountField := {
  parseAccountField : option Value → Js.number → Outcome FilterQuery;
}.

Definition prototype_names : list string := ["__proto__"; "constructor"; "prototype"].

(** Modelled from the spec: [helper/isPrototypeAttribute] is not among the
    sources.  The specification has the compiler skip every key that
    collides with an intrinsic member of the base object and names three
    keys it rejects, [__proto__], [constructor] and [prototype]; which
    other keys it rejects is left open. *)
Class PrototypeGuard := {
  isPrototypeAttribute : string → bool;
  isPrototypeAttribute_named :
    ∀ key, key ∈ prototype_names → isPrototypeAttribute key = true;
}.

(** Modelled from the spec: [helper/parseDateField] is not among the
    sources.  It accepts a native timestamp, a parseable date string or a
    numeric epoch in milliseconds, and an invalid date string fails the
    caller. *)
Definition parseDateField `{Builtins} (value : Value) : Outcome Date :=
  match value with
  | VDate d => Returns d
  | VNumber n => Returns (mkDate n)
  | VString s =>
      let t := Date_parse s in
      if Js.isNaN t then Throws InvalidDateError else Returns (mkDate t)
  | _ => Throws InvalidDateError
  end.

(** ** The query compiler (helper/parseQuery.ts) *)

Section parseQuery.
Context `{Builtins, TransactionSchema, AccountField, PrototypeGuard}.

(** [const { account, start_date, end_date, ...extra } = query] *)
Definition extra_of (query : Query) : Query :=
  filter (fun kv => kv.1 ∉ ["account"; "start_date"; "end_date"]) query.

(** Lines 50-53: a string under an identifier column becomes an
    identifier. *)
Definition coerce (key : string) (value : Value) : Outcome Value :=
  match value with
  | VString s =>
      if isTransactionObjectIdKey key then
        match ObjectId_new s with
        | Some o => Returns (VObjectId o)
        | None => Throws BSONTypeError
        end
      else Returns value
  | _ => Returns value
  end.

(** Lines 48-60: the body of the loop over [Object.entries(extra)]. *)
Definition parseQuery_entry (filterQuery : FilterQuery) (entry : string * Value)
  : Outcome FilterQuery :=
  let '(key, value) := entry in
  if isPrototypeAttribute key then Returns filterQuery
  else
    newValue ← coerce key value;
    if isValidTransactionKey key then
      Returns (<[key := FValue newValue]> filterQuery)
    else
      let meta :=
        match filterQuery !! "meta" with
        | Some m => if filter_truthy (Some m) then m else FObject ∅
        | None => FObject ∅
        end in
      meta' ← assign meta key (FValue newValue);
      Returns (<["meta" := meta']> filterQuery).

(** Lines 39-44: one bound of the range on [datetime]. *)
Definition date_bound (operator : string) (date : option Value)
    (datetime : gmap string FilterValue) : Outcome (gmap string FilterValue) :=
  match date with
  | Some v =>
      if truthy v then
        d ← parseDateField v;
        Returns (<[operator := FValue (VDate d)]> datetime)
      else Returns datetime
  | None => Returns datetime
  end.

Definition parseQuery (query : Query) (book : Book) : Outcome FilterQuery :=
  let account := get query "account" in
  let start_date := get query "start_date" in
  let end_date := get query "end_date" in
  let extra := extra_of query in
  accountFields ← parseAccountField account (maxAccountPath book);
  let filterQuery : FilterQuery :=
    accountFields ∪ {[ "book" := FValue (VString (name book)) ]} in
  filterQuery ←
    (if truthy_opt start_date || truthy_opt end_date then
       datetime ← date_bound "$gte" start_date ∅;
       datetime ← date_bound "$lte" end_date datetime;
       Returns (<["datetime" := FObject datetime]> filterQuery)
     else Returns filterQuery);
  foldM parseQuery_entry extra filterQuery.

End parseQuery.

(** ** The document store *)

Record ITransaction := {
  _id : ObjectId;
  book : string;
  account_path : string;
  credit : Js.number;
  debit : Js.number;
  datetime : Date;
  timestamp : Date;
  voided : bool;
}.

(** A balance snapshot ([IBalance], models/balance). *)
Record IBalance := {
  snapshot_balance : Js.number;
  transaction : ObjectId;
  createdAt : Date;
}.

(** The key under which snapshots are looked up: the compiled [book] and
    [meta] and the joined account. *)
Record SnapshotKey := {
  key_book : option FilterValue;
  key_account : option Value;
  key_meta : option FilterValue;
}.

(** The argument of [snapshotBalance]. *)
Record SnapshotRequest := {
  request_book : string;
  request_account : option Value;
  request_meta : option FilterValue;
  request_transaction : ObjectId;
  request_timestamp : option Date;
  request_balance : Js.number;
  expireInSec : Js.number;
}.

Record IJournal := {
  journal_id : ObjectId;
  journal_book : string;
  journal_voided : bool;
}.

(** The semantics of the store, which is outside the repository, for
    the calls it answers; a call the store rejects fails the caller in
    the code and has no counterpart here:
    - [matches]: whether a document satisfies a filter;
    - [group_sum]: the [$sum] accumulator of an aggregation;
    - [sorted]: the documents in the order a sort specification asks for;
    - [window]: [skip] and [limit] applied to an enumeration.  On document
      counts it drops and takes; on other numbers the store or its driver
      decides, and the enumeration yields no document it was not given. *)
Class Store := {
  matches : FilterQuery → ITransaction → bool;
  group_sum : list Js.number → Js.number;
  sorted : list (string * Z) → list ITransaction → list ITransaction;
  sorted_Permutation : ∀ spec docs, sorted spec docs ≡ₚ docs;
  window : Js.number → Js.number → list ITransaction → Outcome (list ITransaction);
  window_counts : ∀ skip limit s l docs,
    Js.to_count skip = Some s → Js.to_count limit = Some (N.pos l) →
    window skip limit docs = Returns (take (Pos.to_nat l) (drop (N.to_nat s) docs));
  window_sublist : ∀ skip limit docs page,
    window skip limit docs = Returns page → page `sublist_of` docs;
}.

(** [models/balance] and [models/journal], which are not among the
    sources: [getBestSnapshot key] is the snapshot the store holds for a
    key, if any; [journal_void journal book reason] is [journal.void].
    [getBestSnapshot], like the aggregation and [snapshotBalance] in
    [balance], is the call the store answers: its rejection, which
    [balance] would pass on to its caller, has no counterpart here. *)
Class Models := {
  getBestSnapshot : SnapshotKey → option IBalance;
  journal_void : IJournal → Book → option string → Outcome IJournal;
}.

Section Book.
Context `{Builtins, TransactionSchema, AccountField, PrototypeGuard, Store, Models}.

(** *** Book.balance (Book.ts, lines 48-118) *)

Record Aggregated := {
  aggregated_balance : Js.number;
  count : nat;
  lastTransactionId : option ObjectId;
  lastTimestamp : option Date;
}.

(** [transactionModel.aggregate([match, group])]: the group stage has
    the single group [_id: null], so there is one row when a document
    matches and none otherwise. *)
Definition aggregate (filterQuery : FilterQuery) (transactions : list ITransaction)
  : list Aggregated :=
  let matched := filter (fun t => matches filterQuery t = true) transactions in
  match matched with
  | [] => []
  | _ :: _ =>
      [ {| aggregated_balance :=
             group_sum ((fun t => (credit t - debit t)%float) <$> matched);
           count := length matched;
           lastTransactionId := last (_id <$> matched);
           lastTimestamp := last (timestamp <$> matched) |} ]
  end.

(** [([] as string[]).concat(account).join()] *)
Definition concat_join (account : Value) : string :=
  match account with
  | VStrings l => String.concat "," l
  | VString s => s
  | _ => ToString account
  end.

Record BalanceResult := { balance : Js.number; notes : nat }.

(** Line 55: [query.account ? [].concat(query.account).join() :
    query.account] *)
Definition joined_account (query : Query) : option Value :=
  match get query "account" with
  | Some a => if truthy a then Some (VString (concat_join a)) else Some a
  | None => None
  end.

(** The variables of lines 51-68, as the block leaves them. *)
Record Consulted := {
  balanceSnapshot : option IBalance;
  accountForBalanceSnapshot : option Value;
  liveQuery : FilterQuery;
  needToDoBalanceSnapshot : bool;
}.

(** Lines 51-68: the snapshot that applies, the account it is keyed by,
    the filter narrowed to what came after it, and whether a fresh
    snapshot is due. *)
Definition consult_snapshot (this : Book) (query : Query) (now : Js.number)
    (parsedQuery : FilterQuery) : Consulted :=
  if Js.truthy_number (balanceSnapshotSec this) then
    let account := joined_account query in
    let best :=
      getBestSnapshot {| key_book := parsedQuery !! "book";
                         key_account := account;
                         key_meta := parsedQuery !! "meta" |} in
    match best with
    | Some snapshot =>
        {| balanceSnapshot := best;
           accountForBalanceSnapshot := account;
           liveQuery :=
             <["_id" := FObject {[ "$gt" := FValue (VObjectId (transaction snapshot)) ]}]>
               parsedQuery;
           needToDoBalanceSnapshot :=
             PrimFloat.ltb
               (getTime (createdAt snapshot) + balanceSnapshotSec this * 1000)%float now |}
    | None =>
        {| balanceSnapshot := None;
           accountForBalanceSnapshot := account;
           liveQuery := parsedQuery;
           needToDoBalanceSnapshot := true |}
    end
  else
    {| balanceSnapshot := None;
       accountForBalanceSnapshot := None;
       liveQuery := parsedQuery;
       needToDoBalanceSnapshot := true |}.

(** The result and the calls of [snapshotBalance] it made, given the
    reading [now] of the clock and the transactions in the store. *)
Definition Book_balance (this : Book) (query : Query) (now : Js.number)
    (transactions : list ITransaction)
  : Outcome (BalanceResult * list SnapshotRequest) :=
  parsedQuery ← parseQuery query this;
  let consulted := consult_snapshot this query now parsedQuery in
  let parsedQuery := liveQuery consulted in
  let result := head (aggregate parsedQuery transactions) in
  let balance := 0%float in
  let balance :=
    match balanceSnapshot consulted with
    | Some snapshot => (balance + snapshot_balance snapshot)%float
    | None => balance
    end in
  match result with
  | Some result =>
      match toFixed (aggregated_balance result) (precision this) with
      | None => Throws RangeError
      | Some digits =>
          let balance := (balance + parseFloat digits)%float in
          let notes := count result in
          let snapshots :=
            match lastTransactionId result with
            | Some id =>
                if needToDoBalanceSnapshot consulted then
                  [ {| request_book := name this;
                       request_account := accountForBalanceSnapshot consulted;
                       request_meta := parsedQuery !! "meta";
                       request_transaction := id;
                       request_timestamp := lastTimestamp result;
                       request_balance := balance;
                       expireInSec := (balanceSnapshotSec this * 2)%float |} ]
                else []
            | None => []
            end in
          Returns ({| balance := balance; notes := notes |}, snapshots)
      end
  | None => Returns ({| balance := balance; notes := 0 |}, [])
  end.

(** *** Book.ledger (Book.ts, lines 132-178) *)

(** [ToNumber], for the arithmetic on [page] and [perPage]. *)
Definition to_number (v : Value) : Js.number :=
  match v with
  | VNumber n => n
  | VBoolean b => if b then 1%float else 0%float
  | VDate d => getTime d
  | VString s => StringToNumber s
  | VObjectId _ | VStrings _ => StringToNumber (ToString v)
  end.

(** What [ledger] asks of the store: the [find] with its sort, the
    optional [skip] and [limit], and the fields to populate. *)
Record FindRequest := {
  find_filter : FilterQuery;
  find_sort : list (string * Z);
  find_window : option (Js.number * Js.number);
  find_populate : list string;
}.

(** Lines 137-148: [skip] and [limit], and the query object as the
    block leaves it. *)
Definition paginate (query : Query) : option Js.number * Js.number * Query :=
  match get query "perPage" with
  | Some perPage =>
      if truthy perPage then
        let skip :=
          ((match get query "page" with
            | Some page => if truthy page then (to_number page - 1)%float else 0%float
            | None => 0%float
            end) * to_number perPage)%float in
        let limit := to_number perPage in
        (Some skip, limit, delete_property "page" (delete_property "perPage" query))
      else (None, 0%float, query)
  | None => (None, 0%float, query)
  end.

(** [transactionModel.countDocuments(filterQuery)] *)
Definition countDocuments (filterQuery : FilterQuery) (transactions : list ITransaction) : nat :=
  length (filter (fun t => matches filterQuery t = true) transactions).

(** [q.exec()] *)
Definition exec (q : FindRequest) (transactions : list ITransaction)
  : Outcome (list ITransaction) :=
  let found :=
    sorted (find_sort q)
      (filter (fun t => matches (find_filter q) t = true) transactions) in
  match find_window q with
  | Some (skip, limit) => window skip limit found
  | None => Returns found
  end.

Record LedgerResult := { results : list ITransaction; total : nat }.

(** Lines 149-170: the request sent to the store. *)
Definition ledger_request (this : Book) (query : Query) (skip : option Js.number)
    (limit : Js.number) (populate_paths : option (list string)) : Outcome FindRequest :=
  filterQuery ← parseQuery query this;
  Returns {| find_filter := filterQuery;
             find_sort := [("datetime", (-1)%Z); ("timestamp", (-1)%Z)];
             find_window := (fun skip => (skip, limit)) <$> skip;
             find_populate :=
               match populate_paths with
               | Some paths => List.filter isValidTransactionKey paths
               | None => []
               end |}.

(** The query object as the call leaves it, and the outcome. *)
Definition Book_ledger (this : Book) (query : Query) (populate_paths : option (list string))
    (transactions : list ITransaction) : Query * Outcome LedgerResult :=
  let '(skip, limit, query) := paginate query in
  (query,
   q ← ledger_request this query skip limit populate_paths;
   let count :=
     match skip with
     | Some _ => countDocuments (find_filter q) transactions
     | None => 0
     end in
   results ← exec q transactions;
   Returns {| results := results;
              total := if (count =? 0)%nat then length results else count |}).

(** *** Book.void (Book.ts, lines 180-197) *)

(** [journal_id: string | Types.ObjectId] *)
Inductive JournalId :=
| IdString (s : string)
| IdObject (o : ObjectId).

(** The store driver casts the [_id] of a filter to an identifier and
    fails on a string that is not one. *)
Definition cast_id (id : JournalId) : Outcome ObjectId :=
  match id with
  | IdObject o => Returns o
  | IdString s =>
      match ObjectId_new s with
      | Some o => Returns o
      | None => Throws CastError
      end
  end.

(** [journalModel.findOne({ _id, book })] *)
Definition findOne (id : ObjectId) (book : string) (journals : list IJournal)
  : option IJournal :=
  head (filter (fun j => journal_id j = id ∧ journal_book j = book) journals).

Definition Book_void (this : Book) (journal_id : JournalId) (reason : option string)
    (journals : list IJournal) : Outcome IJournal :=
  id ← cast_id journal_id;
  match findOne id (name this) journals with
  | None => Throws JournalNotFoundError
  | Some journal => journal_void journal this reason
  end.

End Book.

(** *** Book.writelockAccounts (Book.ts, lines 199-217) *)

(** A document of the lock collection, which is unique on
    [(book, account)]. *)
Record Lock := {
  updatedAt : Date;
  __v : Z;
}.

Abbreviation Locks := (gmap (string * string) Lock).

(** [Array.from(new Set(accounts))]: a set keeps its elements in the order
    they were first added. *)
Definition Set_from (accounts : list string) : list string :=
  foldl (fun (seen : list string) (account : string) =>
           if decide (account ∈ seen) then seen else (seen ++ [account])%list)
        [] accounts.

(** [updateOne] with [upsert: true], [$set: { updatedAt }],
    [$setOnInsert: { book, account }] and [$inc: { __v: 1 }]: on an
    insertion [$inc] sets the counter to its increment. *)
Definition upsert_lock (book account : string) (now : Date) (locks : Locks) : Locks :=
  match locks !! (book, account) with
  | Some lock => <[(book, account) := {| updatedAt := now; __v := __v lock + 1 |}]> locks
  | None => <[(book, account) := {| updatedAt := now; __v := 1 |}]> locks
  end.

(** The loop of lines 205-215, from the [tick]-th reading of the clock
    on: the accounts upserted, in order, and the collection afterwards. *)
Fixpoint lock_each (book : string) (accounts : list string) (clock : nat → Date)
    (tick : nat) (locks : Locks) : list string * Locks :=
  match accounts with
  | [] => ([], locks)
  | account :: accounts' =>
      let locks := upsert_lock book account (clock tick) locks in
      let '(upserted, locks) := lock_each book accounts' clock (S tick) locks in
      (account :: upserted, locks)
  end.

Definition Book_writelockAccounts (this : Book) (accounts : list string)
    (clock : nat → Date) (locks : Locks) : list string * Locks :=
  let accounts := Set_from accounts in
  lock_each (name this) accounts clock 0 locks.

(** *** Book.listAccounts (Book.ts, lines 219-235) *)

(** [s.split(sep)] for a separator of one code unit: the pieces between
    the separators, of which there is always one. *)
Fixpoint split_string (sep : ascii) (s : string) : list string :=
  match s with
  | EmptyString => [""]
  | String c s' =>
      if decide (c = sep) then "" :: split_string sep s'
      else
        match split_string sep s' with
        | piece :: pieces => String c piece :: pieces
        | [] => [String c ""]
        end
  end.

(** [uniqueAccounts.add(account)]: a set keeps its elements in the order
    they were first added. *)
Definition Set_add (uniqueAccounts : list string) (account : string) : list string :=
  if decide (account ∈ uniqueAccounts) then uniqueAccounts
  else (uniqueAccounts ++ [account])%list.

(** The inner loop of lines 229-232: each segment is pushed on [prev],
    and [prev.join(":")] is added to the set. *)
Fixpoint add_paths (paths prev uniqueAccounts : list string) : list string :=
  match paths with
  | [] => uniqueAccounts
  | acct :: paths' =>
      let prev := (prev ++ [acct])%list in
      add_paths paths' prev (Set_add uniqueAccounts (String.concat ":" prev))
  end.

(** [listAccounts], given the distinct values of [accounts] the store
    returns for the book. *)
Definition Book_listAccounts (results : list string) : list string :=
  foldl (fun (uniqueAccounts : list string) (result : string) =>
           add_paths (split_string ":" result) [] uniqueAccounts)
        [] results.

(** ** Vocabulary of the statements *)

(** [Math.max] of two numbers. *)
Definition Math_max (x y : Js.number) : Js.number :=
  if Js.isNaN x || Js.isNaN y then PrimFloat.nan
  else if PrimFloat.ltb x y then y
  else if PrimFloat.ltb y x then x
  else (x + y)%float.

(** An option of the constructor, with its default. *)
Definition or_default (v : Js.any) (default : Js.number) : Js.any :=
  if Js.not_nullish v then v else Js.Number default.

(** The names the constructor accepts: strings with a character that is
    not white space. *)
Definition accepted_name (v : Js.any) : bool :=
  match v with
  | Js.Str s => negb (forallb Js.isWhiteSpace (list_ascii_of_string s))
  | _ => false
  end.

(** Integers that are not below zero. *)
Definition accepted_count (v : Js.any) : bool :=
  match v with
  | Js.Number n => Js.Number_isInteger n && negb (PrimFloat.ltb n 0%float)
  | _ => false
  end.

(** Numbers that are not below zero, whole or not. *)
Definition accepted_seconds (v : Js.any) : bool :=
  match v with
  | Js.Number n => negb (PrimFloat.ltb n 0%float)
  | _ => false
  end.

Definition accepted (name : Js.any) (options : BookOptions) : bool :=
  accepted_name name
  && accepted_count (or_default (opt_precision options) 8%float)
  && accepted_count (or_default (opt_maxAccountPath options) 3%float)
  && accepted_seconds (or_default (opt_balanceSnapshotSec options) 86400%float).

(** The first of the four settings, in the order name, precision,
    maxAccountPath, balanceSnapshotSec, that is not accepted. *)
Definition first_rejected (name : Js.any) (options : BookOptions) : option string :=
  if negb (accepted_name name) then Some "name"
  else if negb (accepted_count (or_default (opt_precision options) 8%float))
  then Some "precision"
  else if negb (accepted_count (or_default (opt_maxAccountPath options) 3%float))
  then Some "maxAccountPath"
  else if negb (accepted_seconds (or_default (opt_balanceSnapshotSec options) 86400%float))
  then Some "balanceSnapshotSec"
  else None.

(** The property [key] of an object of the filter, among those the
    compiler put there. *)
Definition field_of (object : FilterValue) (key : string) : option FilterValue :=
  match object with
  | FObject fields | FAssigned _ fields => fields !! key
  | FValue _ | FArray _ => None
  end.

(** A pair of the query as it stands in a filter: at top level under a
    column, under [meta] otherwise. *)
Definition routed `{TransactionSchema} (filterQuery : FilterQuery) (key : string)
    (newValue : Value) : Prop :=
  if isValidTransactionKey key then filterQuery !! key = Some (FValue newValue)
  else ∃ meta, filterQuery !! "meta" = Some meta
               ∧ field_of meta key = Some (FValue newValue).

(** The value a pair of the query has in the filter: the identifier a
    string denotes under an identifier column, the value itself
    otherwise. *)
Definition coerced `{Builtins, TransactionSchema} (key : string) (value newValue : Value)
  : Prop :=
  match value with
  | VString s =>
      if isTransactionObjectIdKey key
      then ∃ o, ObjectId_new s = Some o ∧ newValue = VObjectId o
      else newValue = value
  | _ => newValue = value
  end.

(** A filter without a field [key], at top level and under [meta]. *)
Definition absent (filterQuery : FilterQuery) (key : string) : Prop :=
  filterQuery !! key = None
  ∧ ∀ meta, filterQuery !! "meta" = Some meta → field_of meta key = None.

(** The three forms of a date in a query, with the timestamp each
    denotes. *)
Inductive date_input `{Builtins} : Value → Date → Prop :=
| native_timestamp d : date_input (VDate d) d
| numeric_epoch n : date_input (VNumber n) (mkDate n)
| date_string s :
    Js.isNaN (Date_parse s) = false →
    date_input (VString s) (mkDate (Date_parse s)).

(** [parseFloat(x.toFixed(precision))] *)
Definition rounded `{Builtins} (x precision : Js.number) : Js.number :=
  match toFixed x precision with
  | Some digits => parseFloat digits
  | None => PrimFloat.nan
  end.

(** The revision counter of a lock, 0 for a lock that does not exist. *)
Definition revision (locks : Locks) (book account : string) : Z :=
  match locks !! (book, account) with
  | Some lock => __v lock
  | None => 0
  end.

(** The position of the first occurrence of an account in a list. *)
Fixpoint first_index (account : string) (accounts : list string) : option nat :=
  match accounts with
  | [] => None
  | a :: accounts' =>
      if decide (a = account) then Some 0 else S <$> first_index account accounts'
  end.

(** The joins of the prefixes of a path that go beyond [prev]:
    [prev ++ [a1]], [prev ++ [a1; a2]], and so on. *)
Fixpoint joined_prefixes (prev paths : list string) : list string :=
  match paths with
  | [] => []
  | acct :: paths' =>
      String.concat ":" (prev ++ [acct])%list :: joined_prefixes (prev ++ [acct])%list paths'
  end.

(** An account and the accounts above it: [a] is [r] or [r] goes on with
    a colon after [a]. *)
Definition within (a r : string) : Prop :=
  a = r ∨ ∃ rest, r = a ++ ":" ++ rest.

(** A list of accounts in which every account comes after the accounts
    it is within. *)
Definition parents_first (accounts : list string) : Prop :=
  ∀ i a p, accounts !! i = Some a → within p a →
    ∃ j, (j ≤ i)%nat ∧ accounts !! j = Some p.

(** ** A sample environment

    An environment to run the model in: the decimal notation of
    [toFixed] and [parseFloat] is computed exactly, dates are parsed in
    the form [YYYY-MM-DD], identifiers are the strings of 24 hexadecimal
    digits, and the store evaluates the conditions the compiler and the
    balance engine produce on the columns of [ITransaction].  The
    conversions of numbers and dates to strings, which the language
    leaves in part to the implementation, are simplified. *)

Module Sample.

Definition number_of_Z (z : Z) : Js.number :=
  if (z <? 0)%Z then (- PrimFloat.of_uint63 (Uint63.of_Z (- z)))%float
  else PrimFloat.of_uint63 (Uint63.of_Z z).

Definition digits (n : N) : string := NilZero.string_of_uint (N.to_uint n).

Fixpoint zeros (k : nat) : string :=
  match k with
  | O => ""
  | S k => String "0" (zeros k)
  end.

(** [n / 10^f] in decimal notation with [f] fractional digits. *)
Definition decimal (n : N) (f : nat) : string :=
  let d := digits n in
  let d := zeros (S f - String.length d) ++ d in
  let k := (String.length d - f)%nat in
  if (f =? 0)%nat then d else substring 0 k d ++ "." ++ substring k f d.

Definition sign (negative : bool) : string := if negative then "-" else "".

(** [Number.prototype.toFixed]: the nearest multiple of [10^-f], the
    larger one on a tie (a number of [1e21] or more, which the language
    prints with an exponent, is printed in full). *)
Definition to_fixed (x fractionDigits : Js.number) : option string :=
  match Js.to_count fractionDigits with
  | Some f =>
      if (f <=? 100)%N then
        let f := N.to_nat f in
        Some match Prim2SF x with
             | S754_nan => "NaN"
             | S754_infinity s => sign s ++ "Infinity"
             | S754_zero _ => decimal 0 f
             | S754_finite s m e =>
                 let a := (Z.pos m * 10 ^ Z.of_nat f)%Z in
                 let n := if (0 <=? e)%Z then (a * 2 ^ e)%Z
                          else ((2 * a + 2 ^ (- e)) / 2 ^ (1 - e))%Z in
                 sign s ++ decimal (Z.to_N n) f
             end
      else None
  | None => None
  end.

(** The number nearest to [n / 10^f]. *)
Definition nearest (negative : bool) (n : N) (f : nat) : Js.number :=
  match n with
  | N0 => if negative then (-0)%float else 0%float
  | N.pos m =>
      SF2Prim (SFdiv prec emax (S754_finite negative m 0)
                               (S754_finite false (Z.to_pos (10 ^ Z.of_nat f)) 0))
  end.

(** A decimal literal: an optional sign, digits, and an optional point
    followed by digits. *)
Definition parse_decimal (s : string) : option Js.number :=
  let '(negative, body) :=
    match s with
    | String "-" rest => (true, rest)
    | _ => (false, s)
    end in
  let '(whole, fraction) :=
    match index 0 "." body with
    | Some i => (substring 0 i body, substring (S i) (String.length body - S i) body)
    | None => (body, "")
    end in
  if (String.length whole =? 0)%nat then None
  else
    n ← NilZero.uint_of_string (whole ++ fraction);
    Some (nearest negative (N.of_uint n) (String.length fraction)).

Definition parse_float (s : string) : Js.number :=
  match parse_decimal s with
  | Some x => x
  | None =>
      if String.eqb s "Infinity" then PrimFloat.infinity
      else if String.eqb s "-Infinity" then PrimFloat.neg_infinity
      else PrimFloat.nan
  end.

Definition string_to_number (s : string) : Js.number :=
  if (String.length s =? 0)%nat then 0%float else parse_float s.

Definition to_string (v : Value) : string :=
  match v with
  | VString s => s
  | VBoolean b => if b then "true" else "false"
  | VStrings l => String.concat "," l
  | VObjectId o => toHexString o
  | VNumber n => default "NaN" (to_fixed n 0%float)
  | VDate d => default "Invalid Date" (to_fixed (getTime d) 0%float)
  end.

Definition is_hex (c : ascii) : bool :=
  let n := nat_of_ascii c in
  ((48 <=? n) && (n <=? 57) || (97 <=? n) && (n <=? 102) || (65 <=? n) && (n <=? 70))%nat.

Definition new_ObjectId (s : string) : option ObjectId :=
  if (String.length s =? 24)%nat && forallb is_hex (list_ascii_of_string s)
  then Some (mkObjectId s) else None.

(** Days from 1970-01-01 to a date of the proleptic Gregorian
    calendar. *)
Definition days_from_civil (y m d : Z) : Z :=
  let y := if (m <=? 2)%Z then (y - 1)%Z else y in
  let era := (y / 400)%Z in
  let yoe := (y - era * 400)%Z in
  let doy := ((153 * (if (2 <? m)%Z then m - 3 else m + 9) + 2) / 5 + d - 1)%Z in
  let doe := (yoe * 365 + yoe / 4 - yoe / 100 + doy)%Z in
  (era * 146097 + doe - 719468)%Z.

Definition natural (s : string) : option Z :=
  if (String.length s =? 0)%nat then None
  else (fun n => Z.of_N (N.of_uint n)) <$> NilZero.uint_of_string s.

(** [Date.parse] on the form [YYYY-MM-DD]. *)
Definition parse_date (s : string) : Js.number :=
  match natural (substring 0 4 s), natural (substring 5 2 s), natural (substring 8 2 s) with
  | Some y, Some m, Some d =>
      if (String.length s =? 10)%nat && String.eqb (substring 4 1 s) "-"
         && String.eqb (substring 7 1 s) "-"
         && (1 <=? m)%Z && (m <=? 12)%Z && (1 <=? d)%Z && (d <=? 31)%Z
      then number_of_Z (days_from_civil y m d * 86400000)
      else PrimFloat.nan
  | _, _, _ => PrimFloat.nan
  end.

#[export] Instance builtins : Builtins := {|
  Date_parse := parse_date;
  ObjectId_new := new_ObjectId;
  toFixed := to_fixed;
  parseFloat := parse_float;
  ToString := to_string;
  StringToNumber := string_to_number;
|}.

(** Modelled from the spec: the schema of [models/transaction] is not
    among the sources.  The columns are the attributes the
    specification gives a transaction; the identifier columns are its
    identifier and its two references to journals. *)
Definition columns : list string :=
  ["_id"; "book"; "_journal"; "datetime"; "timestamp"; "account_path"; "accounts";
   "debit"; "credit"; "meta"; "voided"; "void_reason"; "_original_journal"].

Definition identifier_columns : list string := ["_id"; "_journal"; "_original_journal"].

#[export] Instance schema : TransactionSchema := {|
  isValidTransactionKey key := bool_decide (key ∈ columns);
  isTransactionObjectIdKey key := bool_decide (key ∈ identifier_columns);
|}.

(** The guard that rejects the three names of the specification and no
    other. *)
#[export] Instance guard : PrototypeGuard := {|
  isPrototypeAttribute key := bool_decide (key ∈ prototype_names);
  isPrototypeAttribute_named key := bool_decide_eq_true_2 (key ∈ prototype_names);
|}.

Definition segments (account : string) : N :=
  N.of_nat (S (length (filter (fun c => c = ":"%char) (list_ascii_of_string account)))).

Definition full_path (maxAccountPath : Js.number) (account : string) : bool :=
  bool_decide (Js.to_count maxAccountPath = Some (segments account)).

(** Modelled from the spec: [helper/parseAccountField] is not among the
    sources.  When all the accounts have exactly [maxAccountPath]
    segments they are compared with the whole path, otherwise they are
    looked up among the prefixes; several accounts make a disjunction; a
    value that is neither a string nor a sequence of strings fails the
    caller. *)
Definition account_fields (account : option Value) (maxAccountPath : Js.number)
  : Outcome FilterQuery :=
  let condition (accounts : list string) (a : string) : FilterQuery :=
    if forallb (full_path maxAccountPath) accounts
    then {[ "account_path" := FValue (VString a) ]}
    else {[ "accounts" := FValue (VString a) ]} in
  match account with
  | None => Returns ∅
  | Some (VString a) => Returns (condition [a] a)
  | Some (VStrings [a]) => Returns (condition [a] a)
  | Some (VStrings l) =>
      Returns {[ "$or" := FArray ((fun a => FObject (condition l a)) <$> l) ]}
  | Some _ => Throws InvalidAccountError
  end.

#[export] Instance account_field : AccountField := {|
  parseAccountField := account_fields;
|}.

(** *** The sample store *)

Definition is_prefix_path (prefix path : string) : bool :=
  String.eqb prefix path || String.prefix (prefix ++ ":") path.

Definition bound (holds : Js.number → bool) (condition : option FilterValue) : bool :=
  match condition with
  | None => true
  | Some (FValue (VDate d)) => holds (getTime d)
  | Some _ => false
  end.

(** One condition of a filter, on the columns of [ITransaction]; a
    condition on anything else selects nothing. *)
Definition satisfies (t : ITransaction) (condition : string * FilterValue) : bool :=
  match condition with
  | ("book", FValue (VString b)) => String.eqb b (book t)
  | ("account_path", FValue (VString p)) => String.eqb p (account_path t)
  | ("accounts", FValue (VString a)) => is_prefix_path a (account_path t)
  | ("voided", FValue (VBoolean b)) => Bool.eqb b (voided t)
  | ("_id", FValue (VObjectId o)) => bool_decide (o = _id t)
  | ("_id", FObject fields) =>
      match fields !! "$gt" with
      | Some (FValue (VObjectId o)) => String.ltb (toHexString o) (toHexString (_id t))
      | _ => false
      end
  | ("datetime", FObject fields) =>
      bound (fun x => PrimFloat.leb x (getTime (datetime t))) (fields !! "$gte")
      && bound (fun x => PrimFloat.leb (getTime (datetime t)) x) (fields !! "$lte")
  | _ => false
  end.

Definition sample_matches (filterQuery : FilterQuery) (t : ITransaction) : bool :=
  forallb (satisfies t) (map_to_list filterQuery).

Definition sort_key (field : string) (t : ITransaction) : Js.number :=
  if String.eqb field "datetime" then getTime (datetime t)
  else if String.eqb field "timestamp" then getTime (timestamp t)
  else 0%float.

(** Whether [a] may come before [b] under a sort specification. *)
Fixpoint precedes (spec : list (string * Z)) (a b : ITransaction) : bool :=
  match spec with
  | [] => true
  | (field, direction) :: spec' =>
      let x := sort_key field a in
      let y := sort_key field b in
      if PrimFloat.eqb x y then precedes spec' a b
      else if (direction <? 0)%Z then PrimFloat.ltb y x else PrimFloat.ltb x y
  end.

Fixpoint insert_sorted (spec : list (string * Z)) (t : ITransaction)
    (docs : list ITransaction) : list ITransaction :=
  match docs with
  | [] => [t]
  | d :: docs' =>
      if precedes spec t d then t :: docs else d :: insert_sorted spec t docs'
  end.

Definition sample_sorted (spec : list (string * Z)) (docs : list ITransaction)
  : list ITransaction :=
  foldr (insert_sorted spec) [] docs.

(** [limit(0)] is no limit. *)
Definition sample_window (skip limit : Js.number) (docs : list ITransaction)
  : Outcome (list ITransaction) :=
  match Js.to_count skip, Js.to_count limit with
  | Some s, Some N0 => Returns (drop (N.to_nat s) docs)
  | Some s, Some (N.pos l) => Returns (take (Pos.to_nat l) (drop (N.to_nat s) docs))
  | _, _ => Throws StoreError
  end.

#[export, refine] Instance store : Store := {|
  matches := sample_matches;
  group_sum := foldl PrimFloat.add 0%float;
  sorted := sample_sorted;
  window := sample_window;
|}.
Proof.
  - intros spec docs. unfold sample_sorted.
    induction docs as [|t docs IH]; [done|]. simpl. rewrite <- IH at 2.
    generalize (foldr (insert_sorted spec) [] docs). clear.
    intros l. induction l as [|d l IH]; simpl; [done|].
    destruct (precedes spec t d); [done|].
    rewrite IH. apply Permutation_swap.
  - intros skip limit s l docs Hs Hl. unfold sample_window. by rewrite Hs, Hl.
  - intros skip limit docs page. unfold sample_window.
    destruct (Js.to_count skip) as [s|]; [|done].
    destruct (Js.to_count limit) as [[|l]|]; [| |done]; intros [= <-].
    + apply sublist_drop.
    + etrans; [apply sublist_take | apply sublist_drop].
Defined.

(** The sibling models: the snapshot the store holds, if any, is given;
    voiding marks the journal, once. *)
Definition models (snapshot : option IBalance) : Models := {|
  getBestSnapshot _ := snapshot;
  journal_void journal _ _ :=
    if journal_voided journal then Throws JournalAlreadyVoidedError
    else Returns {| journal_id := journal_id journal;
                    journal_book := journal_book journal;
                    journal_voided := true |};
|}.

Definition id (n : nat) : ObjectId :=
  mkObjectId (String.concat "" (replicate 23 "0") ++ digits (N.of_nat n)).

Definition main : Book :=
  {| name := "main"; precision := 8; maxAccountPath := 3; balanceSnapshotSec := 60 |}.

Definition posting (n : nat) (account : string) (debit credit : Js.number) (day : string)
  : ITransaction :=
  {| _id := id n; book := "main"; account_path := account;
     credit := credit; debit := debit;
     datetime := mkDate (parse_date day); timestamp := mkDate (parse_date day);
     voided := false |}.

Definition ledger_2024 : list ITransaction :=
  [ posting 1 "Assets:Cash" 100 0 "2024-01-01";
    posting 2 "Income:Sales" 0 100 "2024-01-01";
    posting 3 "Assets:Cash" 25 0 "2024-06-01";
    posting 4 "Income:Sales" 0 25 "2024-06-01";
    posting 5 "Assets:Bank" 7 0 "2024-12-01";
    posting 6 "Income:Sales" 0 7 "2024-12-01" ].

End Sample.

(** * Properties *)

Local Open Scope list_scope.

(** ** The constructor *)

Lemma trimStart_nil (l : list ascii) :
  Js.trimStart l = [] ↔ forallb Js.isWhiteSpace l = true.
Proof.
  induction l as [|c l IH]; simpl; [done|].
  destruct (Js.isWhiteSpace c); simpl; [done|]. split; discriminate.
Qed.

Lemma trimStart_not_blank (l : list ascii) :
  forallb Js.isWhiteSpace l = false →
  forallb Js.isWhiteSpace (Js.trimStart l) = false.
Proof.
  induction l as [|c l IH]; simpl; [done|].
  destruct (Js.isWhiteSpace c) eqn:Hc; simpl; [done|]. by rewrite Hc.
Qed.

Lemma forallb_rev {A} (p : A → bool) (l : list A) :
  forallb p (rev l) = forallb p l.
Proof.
  induction l as [|a l IH]; simpl; [done|].
  rewrite forallb_app, IH. simpl. destruct (forallb p l), (p a); done.
Qed.

Lemma length_string_of_list_ascii (l : list ascii) :
  String.length (string_of_list_ascii l) = length l.
Proof. induction l as [|c l IH]; simpl; congruence. Qed.

(** A name trims to the empty string exactly when it is made of white
    space. *)
Lemma trim_blank (s : string) :
  (String.length (Js.trim s) =? 0)%nat = forallb Js.isWhiteSpace (list_ascii_of_string s).
Proof.
  unfold Js.trim, Js.trimEnd. rewrite length_string_of_list_ascii, length_rev.
  set (l := list_ascii_of_string s).
  destruct (forallb Js.isWhiteSpace l) eqn:Hl.
  - apply trimStart_nil in Hl. rewrite Hl. done.
  - apply trimStart_not_blank in Hl. rewrite <- forallb_rev in Hl.
    destruct (Js.trimStart (rev (Js.trimStart l))) eqn:Ht; [|done].
    apply trimStart_nil in Ht. congruence.
Qed.

Lemma seconds_of_a_day : (24 * 60 * 60)%float = 86400%float.
Proof. reflexivity. Qed.

(** C6, as amended: the constructor returns a book exactly on the
    arguments it accepts, which are a name with a character that is not
    white space, a precision and a maxAccountPath that are integers not
    below zero, and a balanceSnapshotSec that is a number not below zero
    (whole or not), each option replaced by its default 8, 3 or 86400 when
    it is undefined or null; the book then carries these values; on any
    other arguments it throws a BookConstructorError. *)
Theorem Book_constructor_accepts (book_name : Js.any) (options : BookOptions) :
  match Book_constructor book_name options with
  | Returns this =>
      accepted book_name options = true
      ∧ Js.Str (name this) = book_name
      ∧ Js.Number (precision this) = or_default (opt_precision options) 8%float
      ∧ Js.Number (maxAccountPath this) = or_default (opt_maxAccountPath options) 3%float
      ∧ Js.Number (balanceSnapshotSec this)
        = or_default (opt_balanceSnapshotSec options) 86400%float
  | Throws e =>
      accepted book_name options = false
      ∧ ∃ message, e = BookConstructorError message
  end.
Proof.
  unfold Book_constructor, accepted. rewrite seconds_of_a_day.
  fold (or_default (opt_precision options) 8%float).
  fold (or_default (opt_maxAccountPath options) 3%float).
  fold (or_default (opt_balanceSnapshotSec options) 86400%float).
  destruct book_name as [| |b|n|s|]; simpl; eauto.
  rewrite trim_blank.
  destruct (forallb Js.isWhiteSpace (list_ascii_of_string s)); simpl; eauto.
  destruct (or_default (opt_precision options) 8%float) as [| |b|p|s'|]; simpl; eauto.
  destruct (Js.Number_isInteger p), (PrimFloat.ltb p 0%float); simpl; eauto.
  destruct (or_default (opt_maxAccountPath options) 3%float) as [| |b|m|s'|]; simpl; eauto.
  destruct (Js.Number_isInteger m), (PrimFloat.ltb m 0%float); simpl; eauto.
  destruct (or_default (opt_balanceSnapshotSec options) 86400%float) as [| |b|c|s'|];
    simpl; eauto.
  destruct (PrimFloat.ltb c 0%float); simpl; eauto 10.
Qed.

(** C6 fails as stated: a name of one space is a non-empty string and is
    refused, and a balanceSnapshotSec of one second and a half, which is
    not an integer, is accepted. *)
Lemma Book_constructor_blank_name_and_fraction :
  Book_constructor (Js.Str " ") no_options
  = Throws (BookConstructorError "Invalid value for name provided.")
  ∧ Js.Number_isInteger 1.5%float = false
  ∧ Book_constructor (Js.Str "main")
      {| opt_precision := Js.Undefined; opt_maxAccountPath := Js.Undefined;
         opt_balanceSnapshotSec := Js.Number 1.5%float |}
    = Returns {| name := "main"; precision := 8; maxAccountPath := 3;
                 balanceSnapshotSec := 1.5 |}.
Proof. repeat split; vm_compute; reflexivity. Qed.

(** ** Folding a step that may throw *)

Lemma bind_Returns {A B} (a : A) (k : A → Outcome B) : (Returns a ≫= k) = k a.
Proof. reflexivity. Qed.

Lemma foldM_cons {A B} (step : B → A → Outcome B) (a : A) (l : list A) (b : B) :
  foldM step (a :: l) b = (b' ← step b a; foldM step l b').
Proof. reflexivity. Qed.

Lemma foldM_app {A B} (step : B → A → Outcome B) (l1 l2 : list A) (b : B) :
  foldM step (l1 ++ l2) b = (b' ← foldM step l1 b; foldM step l2 b').
Proof.
  revert b. induction l1 as [|a l1 IH]; intros b; simpl; [done|].
  destruct (step b a) as [b1|e]; simpl; [apply IH | done].
Qed.

Lemma foldM_invariant {A B} (P : B → Prop) (step : B → A → Outcome B)
    (l : list A) (b b' : B) :
  (∀ a b1 b2, a ∈ l → P b1 → step b1 a = Returns b2 → P b2) →
  P b → foldM step l b = Returns b' → P b'.
Proof.
  revert b. induction l as [|a l IH]; intros b Hstep Hb; simpl.
  - by intros [= <-].
  - destruct (step b a) as [b1|e] eqn:Hs; simpl; [|done].
    apply IH.
    + intros a' b2 b3 Ha'. apply Hstep. by right.
    + apply (Hstep a b b1); [by left | done | done].
Qed.

(** ** Query objects *)

Lemma get_None_keys (query : Query) (k : string) :
  get query k = None ↔ k ∉ keys query.
Proof.
  unfold keys. induction query as [|[k' v'] query IH]; simpl.
  - split; [intros _; apply not_elem_of_nil | done].
  - rewrite not_elem_of_cons. destruct (decide (k' = k)) as [->|Hne].
    + split; [done | intros [? _]; done].
    + rewrite IH. split; [intros ?; split; [congruence | done] | intros [_ ?]; done].
Qed.

Lemma get_delete_property (query : Query) (k : string) :
  get (delete_property k query) k = None.
Proof.
  apply get_None_keys. unfold keys, delete_property.
  intros ((k' & v) & Hk & Hin)%list_elem_of_fmap.
  apply list_elem_of_filter in Hin as [Hne _]. simpl in *. congruence.
Qed.

Lemma get_delete_property_ne (query : Query) (k k' : string) :
  k ≠ k' → get (delete_property k query) k' = get query k'.
Proof.
  intros Hne. unfold delete_property.
  induction query as [|[k0 v0] query IH]; [done|].
  rewrite filter_cons. simpl. destruct (decide (k0 ≠ k)) as [H0|H0]; simpl.
  - by rewrite IH.
  - apply dec_stable in H0 as ->. rewrite IH.
    destruct (decide (k = k')); [done | done].
Qed.

Lemma keys_extra_of (query : Query) (k : string) :
  k ∈ keys (extra_of query) → k ∈ keys query.
Proof.
  unfold keys, extra_of. intros ((k' & v) & -> & Hin)%list_elem_of_fmap.
  apply list_elem_of_filter in Hin as [_ Hin].
  apply list_elem_of_fmap. by exists (k', v).
Qed.

Lemma NoDup_keys_extra_of (query : Query) :
  NoDup (keys query) → NoDup (keys (extra_of query)).
Proof.
  unfold keys, extra_of. intros Hnd. eapply sublist_NoDup; [exact Hnd|].
  apply fmap_sublist, sublist_filter.
Qed.

(** ** The query compiler *)

Section parseQuery_properties.
Context `{Builtins, TransactionSchema, AccountField, PrototypeGuard}.

(** A step of the loop writes the key it is given or [meta], and
    nothing else. *)
Lemma parseQuery_entry_frame (filterQuery filterQuery' : FilterQuery)
    (key k : string) (value : Value) :
  parseQuery_entry filterQuery (key, value) = Returns filterQuery' →
  k ≠ key → k ≠ "meta" → filterQuery' !! k = filterQuery !! k.
Proof.
  unfold parseQuery_entry. intros Hstep Hkey Hmeta.
  destruct (isPrototypeAttribute key); [by injection Hstep as <-|].
  destruct (coerce key value) as [newValue|e]; simpl in Hstep; [|done].
  destruct (isValidTransactionKey key).
  - injection Hstep as <-. by rewrite lookup_insert_ne.
  - destruct (assign _ key (FValue newValue)) as [meta'|e]; simpl in Hstep; [|done].
    injection Hstep as <-. by rewrite lookup_insert_ne.
Qed.

Lemma parseQuery_extra_frame (extra : Query) (filterQuery filterQuery' : FilterQuery)
    (k : string) :
  foldM parseQuery_entry extra filterQuery = Returns filterQuery' →
  k ∉ keys extra → k ≠ "meta" → filterQuery' !! k = filterQuery !! k.
Proof.
  intros Hfold Hk Hmeta.
  apply (foldM_invariant (fun f => f !! k = filterQuery !! k) _ _ _ _) in Hfold; [done| |done].
  intros [key value] f1 f2 Hin Hf1 Hstep. rewrite <- Hf1.
  apply (parseQuery_entry_frame _ _ key _ value); [done| |done].
  intros ->. apply Hk. unfold keys. apply list_elem_of_fmap. by exists (key, value).
Qed.

(** The three forms of a date are the ones [parseDateField] takes. *)
Lemma date_input_accepted (value : Value) (d : Date) :
  date_input value d → parseDateField value = Returns d.
Proof. intros [d'|n|s Hs]; simpl; [done|done|]. by rewrite Hs. Qed.

(** C4, as amended: when [start_date] and [end_date] each hold a native
    timestamp, a non-empty parseable date string or a numeric epoch
    other than zero, the compiler takes both, and when the query has no
    key named [datetime] the filter it returns constrains [datetime] by
    [$gte] the first and [$lte] the second. *)
Theorem date_range_compiled (this : Book) (query : Query) (start_date end_date : Value)
    (since until : Date) :
  get query "start_date" = Some start_date →
  get query "end_date" = Some end_date →
  truthy start_date = true → truthy end_date = true →
  date_input start_date since → date_input end_date until →
  "datetime" ∉ keys query →
  parseQuery query this
  = (accountFields ← parseAccountField (get query "account") (maxAccountPath this);
     foldM parseQuery_entry (extra_of query)
       (<["datetime" := FObject {[ "$gte" := FValue (VDate since);
                                   "$lte" := FValue (VDate until) ]}]>
          (accountFields ∪ {[ "book" := FValue (VString (name this)) ]})))
  ∧ ∀ filterQuery, parseQuery query this = Returns filterQuery →
      filterQuery !! "datetime"
      = Some (FObject {[ "$gte" := FValue (VDate since); "$lte" := FValue (VDate until) ]}).
Proof.
  intros Hs He Hts Hte Hds Hde Hkey.
  assert (parseQuery query this
    = (accountFields ← parseAccountField (get query "account") (maxAccountPath this);
       foldM parseQuery_entry (extra_of query)
         (<["datetime" := FObject {[ "$gte" := FValue (VDate since);
                                     "$lte" := FValue (VDate until) ]}]>
            (accountFields ∪ {[ "book" := FValue (VString (name this)) ]})))) as Heq.
  { unfold parseQuery. rewrite Hs, He. simpl. rewrite Hts, Hte. simpl.
    rewrite (date_input_accepted _ _ Hds), (date_input_accepted _ _ Hde). simpl.
    destruct (parseAccountField _ _) as [accountFields|e]; simpl; [|done].
    by rewrite (insert_insert_ne _ "$lte" "$gte"), insert_empty. }
  split; [done|]. intros filterQuery. rewrite Heq.
  destruct (parseAccountField _ _) as [accountFields|e]; simpl; [|done].
  intros Hfold. apply parseQuery_extra_frame with (k := "datetime") in Hfold; [| |done].
  - by rewrite Hfold, lookup_insert_eq.
  - intros Hin. by apply Hkey, keys_extra_of.
Qed.

Lemma coerce_coerced (key : string) (value newValue : Value) :
  coerce key value = Returns newValue → coerced key value newValue.
Proof.
  unfold coerce, coerced. destruct value as [s|n|b|d|o|l]; try by intros [= <-].
  destruct (isTransactionObjectIdKey key); [|by intros [= <-]].
  destruct (ObjectId_new s) as [o|]; [|done]. intros [= <-]. by exists o.
Qed.

Lemma assign_field (target : FilterValue) (key : string) (value : FilterValue)
    (target' : FilterValue) :
  assign target key value = Returns target' →
  field_of target' key = Some value
  ∧ ∀ k, k ≠ key → field_of target' k = field_of target k.
Proof.
  destruct target as [v|fields|items|base fields]; simpl.
  - destruct (is_object v); [|done]. intros [= <-]. simpl.
    split; [apply lookup_singleton_eq|]. intros k Hk. by apply lookup_singleton_ne.
  - intros [= <-]. simpl.
    split; [apply lookup_insert_eq|]. intros k Hk. by apply lookup_insert_ne.
  - intros [= <-]. simpl.
    split; [apply lookup_singleton_eq|]. intros k Hk. by apply lookup_singleton_ne.
  - intros [= <-]. simpl.
    split; [apply lookup_insert_eq|]. intros k Hk. by apply lookup_insert_ne.
Qed.

(** The step on a pair the guard lets through puts the pair in the
    filter. *)
Lemma parseQuery_entry_routes (filterQuery filterQuery' : FilterQuery)
    (key : string) (value : Value) :
  isPrototypeAttribute key = false →
  parseQuery_entry filterQuery (key, value) = Returns filterQuery' →
  ∃ newValue, coerced key value newValue ∧ routed filterQuery' key newValue.
Proof.
  unfold parseQuery_entry, routed. intros -> Hstep.
  destruct (coerce key value) as [newValue|e] eqn:Hc; simpl in Hstep; [|done].
  exists newValue. split; [by apply coerce_coerced|].
  destruct (isValidTransactionKey key).
  - injection Hstep as <-. apply lookup_insert_eq.
  - destruct (assign _ key (FValue newValue)) as [meta'|e] eqn:Ha; simpl in Hstep; [|done].
    injection Hstep as <-. exists meta'. split; [apply lookup_insert_eq|].
    by apply assign_field in Ha as [? _].
Qed.

(** A step on another key, not [meta], leaves the pair where it is. *)
Lemma routed_preserved (filterQuery filterQuery' : FilterQuery)
    (key k : string) (newValue v : Value) :
  k ≠ key → k ≠ "meta" → key ≠ "meta" →
  routed filterQuery key newValue →
  parseQuery_entry filterQuery (k, v) = Returns filterQuery' →
  routed filterQuery' key newValue.
Proof.
  unfold routed. intros Hk Hkm Hkeym Hr Hstep.
  destruct (isValidTransactionKey key).
  - rewrite <- Hr. by apply (parseQuery_entry_frame _ _ k _ v).
  - destruct Hr as (meta & Hmeta & Hfield).
    unfold parseQuery_entry in Hstep.
    destruct (isPrototypeAttribute k); [injection Hstep as <-; eauto|].
    destruct (coerce k v) as [v'|e]; simpl in Hstep; [|done].
    destruct (isValidTransactionKey k).
    + injection Hstep as <-. exists meta. by rewrite lookup_insert_ne.
    + rewrite Hmeta in Hstep.
      assert (filter_truthy (Some meta) = true) as Ht
        by (destruct meta; simpl in *; done).
      simpl in Ht. rewrite Ht in Hstep.
      destruct (assign meta k (FValue v')) as [meta'|e] eqn:Ha; simpl in Hstep; [|done].
      injection Hstep as <-. exists meta'. split; [apply lookup_insert_eq|].
      apply assign_field in Ha as [_ Ha]. by rewrite Ha.
Qed.

(** C2, as amended: when a query with no key named [meta] compiles,
    every extra pair whose key the prototype guard lets through is in
    the filter, with a string under an identifier column turned into an
    identifier: at top level when the key is a column, and under
    [meta.<key>] otherwise. *)
Theorem extra_pair_routed (this : Book) (query : Query) (filterQuery : FilterQuery)
    (key : string) (value : Value) :
  NoDup (keys query) →
  "meta" ∉ keys query →
  (key, value) ∈ extra_of query →
  isPrototypeAttribute key = false →
  parseQuery query this = Returns filterQuery →
  ∃ newValue, coerced key value newValue ∧ routed filterQuery key newValue.
Proof.
  intros Hnd Hmeta Hin Hguard Hparse.
  unfold parseQuery in Hparse.
  destruct (parseAccountField _ _) as [accountFields|e]; simpl in Hparse; [|done].
  match type of Hparse with (mbind _ ?m = _) => destruct m as [f0|e] end;
    simpl in Hparse; [|done].
  apply NoDup_keys_extra_of in Hnd.
  assert ("meta" ∉ keys (extra_of query)) as Hmeta'
    by (intros ?; by apply Hmeta, keys_extra_of).
  apply list_elem_of_split in Hin as (l1 & l2 & Hsplit).
  rewrite Hsplit in Hparse, Hnd, Hmeta'. clear Hsplit.
  rewrite foldM_app in Hparse.
  destruct (foldM parseQuery_entry l1 f0) as [f1|e]; [|done].
  rewrite bind_Returns, foldM_cons in Hparse.
  destruct (parseQuery_entry f1 (key, value)) as [f2|e] eqn:Hstep; [|done].
  rewrite bind_Returns in Hparse.
  apply parseQuery_entry_routes in Hstep as (newValue & Hc & Hr); [|done].
  exists newValue. split; [done|].
  unfold keys in Hnd, Hmeta'. rewrite fmap_app, fmap_cons in Hnd, Hmeta'. simpl in *.
  apply NoDup_app in Hnd as (_ & _ & Hnd). apply NoDup_cons in Hnd as [Hkey _].
  rewrite elem_of_app, elem_of_cons in Hmeta'.
  apply (foldM_invariant (fun f => routed f key newValue) _ _ _ _) in Hparse;
    [done| |done].
  intros [k v] b1 b2 Hkv Hb1. apply routed_preserved; [| |naive_solver|done].
  - intros ->. apply Hkey, list_elem_of_fmap. by exists (key, v).
  - intros ->. apply Hmeta'. right. right. apply list_elem_of_fmap. by exists ("meta", v).
Qed.

(** *** The prototype guard *)

Lemma extra_of_delete_property (query : Query) (key : string) :
  extra_of (delete_property key query) = delete_property key (extra_of query).
Proof.
  unfold extra_of, delete_property.
  induction query as [|[k v] query IH]; [done|].
  rewrite !filter_cons. simpl.
  destruct (decide (k ≠ key)), (decide (k ∉ ["account"; "start_date"; "end_date"]));
    rewrite ?filter_cons; simpl;
    repeat (case_decide; try done); by rewrite IH.
Qed.

Lemma foldM_delete_property (extra : Query) (key : string) (filterQuery : FilterQuery) :
  isPrototypeAttribute key = true →
  foldM parseQuery_entry (delete_property key extra) filterQuery
  = foldM parseQuery_entry extra filterQuery.
Proof.
  intros Hguard. unfold delete_property.
  revert filterQuery. induction extra as [|[k v] extra IH]; intros filterQuery; [done|].
  rewrite filter_cons. simpl. destruct (decide (k ≠ key)) as [Hk|Hk]; simpl.
  - destruct (isPrototypeAttribute k); simpl; [apply IH|].
    destruct (coerce k v) as [v'|e]; simpl; [|done].
    destruct (isValidTransactionKey k); simpl; [apply IH|].
    destruct (assign _ k (FValue v')); simpl; [apply IH | done].
  - apply dec_stable in Hk as ->. rewrite Hguard. simpl. apply IH.
Qed.

Lemma absent_preserved (filterQuery filterQuery' : FilterQuery)
    (key k : string) (v : Value) :
  isPrototypeAttribute key = true → key ≠ "meta" →
  absent filterQuery key →
  parseQuery_entry filterQuery (k, v) = Returns filterQuery' →
  absent filterQuery' key.
Proof.
  unfold absent, parseQuery_entry. intros Hguard Hkeym [Htop Hmeta] Hstep.
  destruct (isPrototypeAttribute k) eqn:Hk; [by injection Hstep as <-|].
  assert (k ≠ key) as Hne by congruence.
  destruct (coerce k v) as [v'|e]; [rewrite bind_Returns in Hstep | discriminate Hstep].
  destruct (isValidTransactionKey k).
  - injection Hstep as <-. split; [by rewrite lookup_insert_ne|].
    intros meta. destruct (decide (k = "meta")) as [->|Hkm].
    + rewrite lookup_insert_eq. by intros [= <-].
    + rewrite lookup_insert_ne by done. apply Hmeta.
  - destruct (assign _ k (FValue v')) as [meta'|e] eqn:Ha;
      [rewrite bind_Returns in Hstep | discriminate Hstep].
    injection Hstep as <-. split; [by rewrite lookup_insert_ne|].
    intros meta. rewrite lookup_insert_eq. intros [= <-].
    apply assign_field in Ha as [_ Ha]. rewrite Ha by done.
    destruct (filterQuery !! "meta") as [m|] eqn:Hm; [|apply lookup_empty].
    destruct (filter_truthy (Some m)); [by apply Hmeta | apply lookup_empty].
Qed.

(** C8: a key named [__proto__], [constructor] or [prototype] is
    dropped in silence: the query compiles to what it compiles to
    without the key, an error included, so the key raises none; and
    when the account part of the filter has no field of that name, at
    top level or under [meta], neither has the filter. *)
Theorem prototype_keys_dropped (this : Book) (query : Query) (key : string) :
  key ∈ prototype_names →
  (∀ accountFields,
     parseAccountField (get query "account") (maxAccountPath this) = Returns accountFields →
     absent accountFields key) →
  parseQuery query this = parseQuery (delete_property key query) this
  ∧ ∀ filterQuery, parseQuery query this = Returns filterQuery → absent filterQuery key.
Proof.
  intros Hkey Haccount.
  pose proof (isPrototypeAttribute_named key Hkey) as Hguard.
  assert (key ≠ "account" ∧ key ≠ "start_date" ∧ key ≠ "end_date"
          ∧ key ≠ "meta" ∧ key ≠ "book" ∧ key ≠ "datetime") as (Ha & Hs & He & Hm & Hb & Hd).
  { unfold prototype_names in Hkey. rewrite !elem_of_cons, elem_of_nil in Hkey.
    destruct Hkey as [->| [->| [->|[]]]]; done. }
  split.
  - unfold parseQuery.
    rewrite !get_delete_property_ne, extra_of_delete_property by done.
    destruct (parseAccountField _ _) as [accountFields|e]; simpl; [|done].
    match goal with |- mbind _ ?m = _ => destruct m as [f0|e] end; simpl; [|done].
    by rewrite foldM_delete_property.
  - intros filterQuery. unfold parseQuery.
    destruct (parseAccountField _ _) as [accountFields|e] eqn:Hacc; simpl; [|done].
    specialize (Haccount _ eq_refl) as [Htop Hmeta].
    assert (absent (accountFields ∪ {[ "book" := FValue (VString (name this)) ]}) key)
      as Hinit.
    { split.
      - apply lookup_union_None. split; [done | by apply lookup_singleton_ne].
      - intros meta. rewrite lookup_union_l by (by apply lookup_singleton_ne). apply Hmeta. }
    match goal with |- mbind _ ?m = _ → _ => destruct m as [f0|e] eqn:Hdate end;
      simpl; [|done].
    assert (absent f0 key) as Hf0.
    { destruct (truthy_opt _ || truthy_opt _).
      - destruct (date_bound "$gte" _ _) as [d1|e]; simpl in Hdate; [|done].
        destruct (date_bound "$lte" _ _) as [d2|e]; simpl in Hdate; [|done].
        injection Hdate as <-. destruct Hinit as [Hi1 Hi2]. split.
        + by rewrite lookup_insert_ne.
        + intros meta. rewrite lookup_insert_ne by done. apply Hi2.
      - by injection Hdate as <-. }
    intros Hfold.
    apply (foldM_invariant (fun f => absent f key) _ _ _ _) in Hfold; [done| |done].
    intros [k v] b1 b2 _ Hb1. by apply absent_preserved.
Qed.

End parseQuery_properties.

(** ** Arithmetic on numbers *)

Lemma same_number_refl (x : Js.number) : Js.same_number x x = true.
Proof. unfold Js.same_number, Js.isNaN. by destruct (PrimFloat.eqb x x). Qed.

Lemma Prim2SF_zero : Prim2SF 0%float = S754_zero false.
Proof. reflexivity. Qed.

(** Adding a number that is not a zero to a zero gives the number. *)
Lemma add_zero_nonzero (z x : Js.number) (s : bool) :
  Prim2SF z = S754_zero s →
  (∀ s', Prim2SF x ≠ S754_zero s') →
  (z + x)%float = x.
Proof.
  intros Hz Hx. apply Prim2SF_inj. rewrite add_spec, Hz. unfold SF64add, SFadd.
  destruct (Prim2SF x) as [s'| | |]; [by destruct (Hx s') | done..].
Qed.

(** [0 + x] is [x], but for the sign of a zero. *)
Lemma add_zero_l (x : Js.number) : Js.same_number (0 + x) x = true.
Proof.
  destruct (Prim2SF x) as [s| | |] eqn:Hx.
  - unfold Js.same_number. rewrite FloatAxioms.eqb_spec, add_spec, Hx, Prim2SF_zero.
    by destruct s.
  - rewrite (add_zero_nonzero _ _ false); [apply same_number_refl | done | by rewrite Hx].
  - rewrite (add_zero_nonzero _ _ false); [apply same_number_refl | done | by rewrite Hx].
  - rewrite (add_zero_nonzero _ _ false); [apply same_number_refl | done | by rewrite Hx].
Qed.

Lemma add_zeros (z z' y : Js.number) (s s' : bool) :
  Prim2SF z = S754_zero s → Prim2SF z' = S754_zero s' →
  Js.same_number (z + y) (z' + y) = true.
Proof.
  intros Hz Hz'. destruct (Prim2SF y) as [sy| | |] eqn:Hy.
  - unfold Js.same_number. rewrite FloatAxioms.eqb_spec, !add_spec, Hz, Hz', Hy.
    by destruct s, s', sy.
  - rewrite (add_zero_nonzero z y s), (add_zero_nonzero z' y s');
      [apply same_number_refl | done | by rewrite Hy | done | by rewrite Hy].
  - rewrite (add_zero_nonzero z y s), (add_zero_nonzero z' y s');
      [apply same_number_refl | done | by rewrite Hy | done | by rewrite Hy].
  - rewrite (add_zero_nonzero z y s), (add_zero_nonzero z' y s');
      [apply same_number_refl | done | by rewrite Hy | done | by rewrite Hy].
Qed.

(** Starting a sum at [0] does not change it. *)
Lemma add_zero_l_add (x y : Js.number) :
  Js.same_number (0 + x + y) (x + y) = true.
Proof.
  destruct (Prim2SF x) as [s| | |] eqn:Hx.
  - apply (add_zeros _ _ _ false s); [|done].
    rewrite add_spec, Hx, Prim2SF_zero. by destruct s.
  - rewrite (add_zero_nonzero 0 x false); [apply same_number_refl | done | by rewrite Hx].
  - rewrite (add_zero_nonzero 0 x false); [apply same_number_refl | done | by rewrite Hx].
  - rewrite (add_zero_nonzero 0 x false); [apply same_number_refl | done | by rewrite Hx].
Qed.

Lemma add_zero_r (x : Js.number) : Js.same_number (0 + x) (x + 0) = true.
Proof.
  destruct (Prim2SF x) as [s| | |] eqn:Hx.
  - unfold Js.same_number. rewrite FloatAxioms.eqb_spec, !add_spec, Hx, Prim2SF_zero.
    by destruct s.
  - rewrite (add_zero_nonzero 0 x false); [|done|by rewrite Hx].
    assert ((x + 0)%float = x) as ->; [|apply same_number_refl].
    apply Prim2SF_inj. by rewrite add_spec, Hx, Prim2SF_zero.
  - rewrite (add_zero_nonzero 0 x false); [|done|by rewrite Hx].
    assert ((x + 0)%float = x) as ->; [|apply same_number_refl].
    apply Prim2SF_inj. by rewrite add_spec, Hx, Prim2SF_zero.
  - rewrite (add_zero_nonzero 0 x false); [|done|by rewrite Hx].
    assert ((x + 0)%float = x) as ->; [|apply same_number_refl].
    apply Prim2SF_inj. by rewrite add_spec, Hx, Prim2SF_zero.
Qed.

(** A number above another is not [NaN]. *)
Lemma ltb_not_NaN (x y : Js.number) : PrimFloat.ltb x y = true → Js.isNaN y = false.
Proof.
  unfold Js.isNaN. rewrite ltb_spec, FloatAxioms.eqb_spec. unfold SFltb, SFeqb.
  destruct (Prim2SF y) as [s|s| |s m e]; simpl.
  - done.
  - by destruct s.
  - by destruct (Prim2SF x) as [| | |].
  - rewrite Z.compare_refl, Pos.compare_cont_refl. by destruct s.
Qed.

(** The larger of zero and a number above zero is that number. *)
Lemma Math_max_above_zero (x : Js.number) :
  PrimFloat.ltb 0 x = true → Math_max 0 x = x.
Proof.
  intros Hx. unfold Math_max. rewrite (ltb_not_NaN _ _ Hx), Hx. reflexivity.
Qed.

(** Multiplication of numbers is commutative. *)
Lemma mul_comm (x y : Js.number) : (x * y)%float = (y * x)%float.
Proof.
  apply Prim2SF_inj. rewrite !mul_spec. unfold SF64mul, SFmul.
  destruct (Prim2SF x) as [sx|sx| |sx mx ex], (Prim2SF y) as [sy|sy| |sy my ey];
    try done; try by rewrite xorb_comm.
  by rewrite xorb_comm, Pos.mul_comm, Z.add_comm.
Qed.

(** ** The balance engine *)

Section balance_properties.
Context `{Builtins, TransactionSchema, AccountField, PrototypeGuard, Store, Models}.

(** The row of the aggregation, when a transaction matches. *)
Lemma aggregate_row (filterQuery : FilterQuery) (transactions : list ITransaction) :
  let matched := filter (fun t => matches filterQuery t = true) transactions in
  head (aggregate filterQuery transactions)
  = match matched with
    | [] => None
    | _ :: _ =>
        Some {| aggregated_balance :=
                  group_sum ((fun t => (credit t - debit t)%float) <$> matched);
                count := length matched;
                lastTransactionId := last (_id <$> matched);
                lastTimestamp := last (timestamp <$> matched) |}
    end.
Proof.
  simpl. unfold aggregate.
  by destruct (filter (fun t => matches filterQuery t = true) transactions).
Qed.

(** What the block of lines 51-68 leaves: the snapshot the store holds
    for the key of the query when snapshots are enabled, and the filter,
    narrowed to the transactions after the snapshot when there is
    one. *)
Lemma consult_snapshot_best (this : Book) (query : Query) (now : Js.number)
    (parsedQuery : FilterQuery) :
  let consulted := consult_snapshot this query now parsedQuery in
  balanceSnapshot consulted
  = (if Js.truthy_number (balanceSnapshotSec this) then
       getBestSnapshot {| key_book := parsedQuery !! "book";
                          key_account := joined_account query;
                          key_meta := parsedQuery !! "meta" |}
     else None)
  ∧ liveQuery consulted
    = match balanceSnapshot consulted with
      | Some snapshot =>
          <["_id" := FObject {[ "$gt" := FValue (VObjectId (transaction snapshot)) ]}]>
            parsedQuery
      | None => parsedQuery
      end
  ∧ needToDoBalanceSnapshot consulted
    = match balanceSnapshot consulted with
      | Some snapshot =>
          PrimFloat.ltb
            (getTime (createdAt snapshot) + balanceSnapshotSec this * 1000)%float now
      | None => true
      end.
Proof.
  simpl. unfold consult_snapshot.
  destruct (Js.truthy_number (balanceSnapshotSec this)); [|done].
  by destruct (getBestSnapshot _).
Qed.

(** C1: when the query compiles and the sum can be printed with
    [precision] digits, [balance] returns.  The snapshot is the best one
    the store holds, when snapshots are enabled, for the key made of the
    compiled [book] and [meta] and of the account of the query, joined
    with commas when it holds.  The delta aggregation runs over the
    transactions that match the compiled filter, narrowed by
    [_id: { $gt: snapshot.transaction }] when there is a snapshot.  The
    balance is that of the snapshot (0 without one) plus the sum of
    credit minus debit over these transactions, rounded by
    [parseFloat(x.toFixed(precision))], and [notes] is their number.
    Without a snapshot and without such a transaction the result is
    [{ balance: 0, notes: 0 }]; with a snapshot and without a
    transaction after it, it is the balance of the snapshot and
    [notes = 0]. *)
Theorem balance_is_snapshot_plus_delta (this : Book) (query : Query) (now : Js.number)
    (transactions : list ITransaction) (parsedQuery : FilterQuery) :
  parseQuery query this = Returns parsedQuery →
  let best :=
    if Js.truthy_number (balanceSnapshotSec this) then
      getBestSnapshot
        {| key_book := parsedQuery !! "book";
           key_account :=
             match get query "account" with
             | Some a => if truthy a then Some (VString (concat_join a)) else Some a
             | None => None
             end;
           key_meta := parsedQuery !! "meta" |}
    else None in
  let live :=
    match best with
    | Some snapshot =>
        <["_id" := FObject {[ "$gt" := FValue (VObjectId (transaction snapshot)) ]}]>
          parsedQuery
    | None => parsedQuery
    end in
  let matched := filter (fun t => matches live t = true) transactions in
  let delta := group_sum ((fun t => (credit t - debit t)%float) <$> matched) in
  (matched ≠ [] → is_Some (toFixed delta (precision this))) →
  ∃ result snapshots,
    Book_balance this query now transactions = Returns (result, snapshots)
    ∧ Js.same_number (balance result)
        ((match best with
          | Some snapshot => snapshot_balance snapshot
          | None => 0
          end)
         + (match matched with
            | [] => 0
            | _ :: _ => rounded delta (precision this)
            end))%float = true
    ∧ notes result = length matched
    ∧ (best = None → matched = [] → result = {| balance := 0; notes := 0 |})
    ∧ (∀ snapshot, best = Some snapshot → matched = [] →
       Js.same_number (balance result) (snapshot_balance snapshot) = true
       ∧ notes result = 0).
Proof.
  intros Hparse best live matched delta Hdigits.
  pose proof (consult_snapshot_best this query now parsedQuery) as (Hbest & Hlive & _).
  cbv zeta in Hbest, Hlive. rewrite Hbest in Hlive.
  change (balanceSnapshot (consult_snapshot this query now parsedQuery) = best) in Hbest.
  change (liveQuery (consult_snapshot this query now parsedQuery) = live) in Hlive.
  unfold Book_balance. rewrite Hparse, bind_Returns. cbv zeta.
  rewrite Hlive, Hbest, aggregate_row. fold matched. fold delta.
  destruct matched as [|t matched'] eqn:Hmatched.
  - eexists _, _. split; [done|]. simpl.
    destruct best as [snapshot|].
    + split; [apply add_zero_r|]. split; [done|]. split; [done|].
      intros s [= <-] _. split; [apply add_zero_l | done].
    + split; [done|]. split; [done|]. split; [done|]. intros s. discriminate.
  - destruct Hdigits as [digits Hd]; [done|]. subst delta.
    cbn [aggregated_balance count lastTransactionId lastTimestamp]. rewrite Hd.
    eexists _, _. split; [done|].
    unfold rounded. rewrite Hd. simpl.
    destruct best as [snapshot|].
    + split; [apply add_zero_l_add|]. split; [done|]. split; [done|]. done.
    + split; [apply same_number_refl|]. split; [done|]. split; [done|]. done.
Qed.

(** C3, as amended: in a balance query with snapshots enabled that
    compiles and whose sum [toFixed] can print with [precision] digits
    (when it cannot, [balance] throws a [RangeError] and writes no
    snapshot, whatever was due), the filter of the aggregation is the
    compiled one with [_id: { $gt: snapshot.transaction }] when the store
    holds a snapshot for the key; a snapshot is written exactly when a
    refresh is due (there was no snapshot, or
    [createdAt + balanceSnapshotSec * 1000] is before the clock) and a
    transaction matched; and the one written has [expireInSec] equal to
    twice [balanceSnapshotSec]. *)
Theorem snapshot_refreshed (this : Book) (query : Query) (now : Js.number)
    (transactions : list ITransaction) (parsedQuery : FilterQuery) :
  Js.truthy_number (balanceSnapshotSec this) = true →
  parseQuery query this = Returns parsedQuery →
  let consulted := consult_snapshot this query now parsedQuery in
  let matched := filter (fun t => matches (liveQuery consulted) t = true) transactions in
  let delta := group_sum ((fun t => (credit t - debit t)%float) <$> matched) in
  let refresh :=
    match balanceSnapshot consulted with
    | Some snapshot =>
        PrimFloat.ltb
          (getTime (createdAt snapshot) + balanceSnapshotSec this * 1000)%float now
    | None => true
    end in
  (matched ≠ [] → is_Some (toFixed delta (precision this))) →
  balanceSnapshot consulted
  = getBestSnapshot {| key_book := parsedQuery !! "book";
                       key_account := joined_account query;
                       key_meta := parsedQuery !! "meta" |}
  ∧ liveQuery consulted
    = match balanceSnapshot consulted with
      | Some snapshot =>
          <["_id" := FObject {[ "$gt" := FValue (VObjectId (transaction snapshot)) ]}]>
            parsedQuery
      | None => parsedQuery
      end
  ∧ ∃ result snapshots,
      Book_balance this query now transactions = Returns (result, snapshots)
      ∧ notes result = length matched
      ∧ (snapshots ≠ [] ↔ refresh = true ∧ matched ≠ [])
      ∧ ∀ written, written ∈ snapshots →
          snapshots = [written]
          ∧ expireInSec written = (2 * balanceSnapshotSec this)%float
          ∧ request_balance written = balance result
          ∧ Some (request_transaction written) = last (_id <$> matched).
Proof.
  intros Henabled Hparse consulted matched delta refresh Hdigits.
  pose proof (consult_snapshot_best this query now parsedQuery) as (Hbest & Hlive & Hneed).
  fold consulted in Hbest, Hlive, Hneed. rewrite Henabled in Hbest.
  split; [done|]. split; [done|].
  unfold Book_balance. rewrite Hparse, bind_Returns. fold consulted.
  rewrite aggregate_row. fold matched. fold delta. fold refresh in Hneed.
  destruct matched as [|t matched'] eqn:Hmatched.
  - eexists _, _. split; [done|]. split; [done|]. split.
    + split; [done | by intros [_ ?]].
    + intros written Hin. by apply elem_of_nil in Hin.
  - destruct Hdigits as [digits Hd]; [done|]. subst delta. cbv zeta.
    cbn [aggregated_balance count lastTransactionId lastTimestamp]. rewrite Hd.
    destruct (last_is_Some (_id <$> t :: matched')) as [_ [id Hid]]; [done|].
    rewrite Hid, Hneed.
    eexists _, _. split; [done|]. split; [done|].
    destruct refresh; simpl.
    + split; [done|]. intros written ->%list_elem_of_singleton. simpl.
      by rewrite mul_comm.
    + split; [split; [done | by intros [? _]] |].
      intros written Hin. by apply elem_of_nil in Hin.
Qed.

End balance_properties.

(** ** The ledger lister *)

Section ledger_properties.
Context `{Builtins, TransactionSchema, AccountField, PrototypeGuard, Store, Models}.

Lemma paginate_query (query : Query) :
  (paginate query).2
  = if truthy_opt (get query "perPage")
    then delete_property "page" (delete_property "perPage" query)
    else query.
Proof.
  unfold paginate. destruct (get query "perPage") as [perPage|]; [|done]. simpl.
  by destruct (truthy perPage).
Qed.

Lemma sorted_nil (spec : list (string * Z)) : sorted spec [] = [].
Proof. apply Permutation_nil_r, sorted_Permutation. Qed.

(** C5, as amended: with a [perPage] that holds, [ledger] asks the
    store to skip [(page - 1) * perPage] documents when [page] holds
    and [0 * perPage] when it does not, and to limit the enumeration to
    [perPage] documents, of the transactions that match the filter
    compiled from the query without [perPage] and [page], newest first;
    when the store answers, [total] is the number of all the transactions
    that match that filter, whatever the page; when the two numbers are
    document counts the store answers with that many documents dropped
    and at most that many taken; and the number to skip is
    [max(0, page - 1) * perPage] whenever [page - 1] is above zero (below
    zero nothing keeps it from being negative). *)
Theorem ledger_page (this : Book) (query : Query) (populate_paths : option (list string))
    (transactions : list ITransaction) (perPage : Value) (filterQuery : FilterQuery) :
  get query "perPage" = Some perPage → truthy perPage = true →
  let index :=
    match get query "page" with
    | Some page => if truthy page then (to_number page - 1)%float else 0%float
    | None => 0%float
    end in
  let skip := (index * to_number perPage)%float in
  let limit := to_number perPage in
  let query' := delete_property "page" (delete_property "perPage" query) in
  parseQuery query' this = Returns filterQuery →
  let matching := filter (fun t => matches filterQuery t = true) transactions in
  let found := sorted [("datetime", (-1)%Z); ("timestamp", (-1)%Z)] matching in
  (Book_ledger this query populate_paths transactions).2
  = (page ← window skip limit found;
     Returns {| results := page; total := length matching |})
  ∧ (∀ s l, Js.to_count skip = Some s → Js.to_count limit = Some (N.pos l) →
      Book_ledger this query populate_paths transactions
      = (query', Returns {| results := take (Pos.to_nat l) (drop (N.to_nat s) found);
                            total := length matching |}))
  ∧ (∀ page, get query "page" = Some page → truthy page = true →
      PrimFloat.ltb 0 (to_number page - 1) = true →
      skip = (Math_max 0 (to_number page - 1) * to_number perPage)%float).
Proof.
  intros HperPage Htruthy index skip limit query' Hparse matching found.
  assert (Book_ledger this query populate_paths transactions
          = (query', page ← window skip limit found;
                     Returns {| results := page; total := length matching |})) as Hledger.
  { unfold Book_ledger, paginate. rewrite HperPage, Htruthy.
    fold index. fold skip. fold limit. fold query'.
    unfold ledger_request. rewrite Hparse, !bind_Returns.
    unfold exec, countDocuments. cbn [find_filter find_sort find_window fmap option_fmap option_map].
    fold matching. fold found. f_equal.
    destruct (window skip limit found) as [page|e] eqn:Hw; [|done].
    rewrite !bind_Returns. do 2 f_equal.
    destruct (length matching) as [|n] eqn:Hn; [|done]. simpl.
    apply nil_length_inv in Hn. subst found. rewrite Hn in Hw.
    apply window_sublist in Hw.
    rewrite sorted_nil in Hw. by apply sublist_nil_r in Hw as ->. }
  rewrite Hledger. split; [done|]. split.
  - intros s l Hs Hl. by rewrite (window_counts _ _ s l).
  - intros page Hpage Htpage Habove. subst skip index.
    by rewrite Hpage, Htpage, Math_max_above_zero.
Qed.

(** C10: [ledger] leaves the query object without [perPage] and [page]
    when [perPage] holds, so the object differs from the one passed,
    and leaves it as it was otherwise; it compiles the filter from the
    object it leaves. *)
Theorem ledger_leaves_query (this : Book) (query : Query)
    (populate_paths : option (list string)) (transactions : list ITransaction) :
  let left := (Book_ledger this query populate_paths transactions).1 in
  let outcome := (Book_ledger this query populate_paths transactions).2 in
  left = (if truthy_opt (get query "perPage")
          then delete_property "page" (delete_property "perPage" query)
          else query)
  ∧ (truthy_opt (get query "perPage") = true →
     get left "perPage" = None ∧ get left "page" = None
     ∧ (∀ k, k ≠ "perPage" → k ≠ "page" → get left k = get query k)
     ∧ left ≠ query)
  ∧ (∀ e, parseQuery left this = Throws e → outcome = Throws e)
  ∧ (∀ result, outcome = Returns result →
     ∃ filterQuery, parseQuery left this = Returns filterQuery
       ∧ ∀ t, t ∈ results result → matches filterQuery t = true).
Proof.
  simpl.
  assert ((Book_ledger this query populate_paths transactions).1 = (paginate query).2) as Hleft.
  { unfold Book_ledger. by destruct (paginate query) as [[skip limit] query']. }
  rewrite Hleft, paginate_query. split; [done|]. split.
  - intros Hpp. rewrite Hpp.
    split; [rewrite get_delete_property_ne by done; apply get_delete_property|].
    split; [apply get_delete_property|].
    split; [intros k Hk1 Hk2; by rewrite !get_delete_property_ne|].
    intros Heq. rewrite <- Heq in Hpp.
    rewrite get_delete_property_ne, get_delete_property in Hpp; done.
  - rewrite <- paginate_query. unfold Book_ledger.
    destruct (paginate query) as [[skip limit] query']. simpl. unfold ledger_request.
    split.
    + intros e ->. done.
    + intros result. destruct (parseQuery query' this) as [filterQuery|e]; [|done].
      rewrite !bind_Returns. unfold exec at 1. cbn [find_filter find_sort find_window].
      intros Hres. exists filterQuery. split; [done|].
      assert (∃ page, results result = page
                ∧ page `sublist_of`
                    sorted [("datetime", (-1)%Z); ("timestamp", (-1)%Z)]
                      (filter (fun t => matches filterQuery t = true) transactions))
        as (page & Hpage & Hsub).
      { destruct skip as [skip|]; simpl in Hres.
        - destruct (window skip limit _) as [page|e] eqn:Hw; [|done].
          rewrite bind_Returns in Hres. injection Hres as <-. simpl.
          exists page. split; [done|]. by eapply window_sublist.
        - injection Hres as <-. simpl. eexists. split; [done|]. done. }
      intros t Ht. rewrite Hpage in Ht.
      eapply elem_of_sublist in Ht; [|done].
      rewrite sorted_Permutation in Ht. by apply list_elem_of_filter in Ht as [? _].
Qed.

End ledger_properties.

(** ** Voiding a journal *)

Section void_properties.
Context `{Builtins, TransactionSchema, AccountField, PrototypeGuard, Store, Models}.

Lemma findOne_Some (id : ObjectId) (book : string) (journals : list IJournal)
    (journal : IJournal) :
  findOne id book journals = Some journal →
  journal ∈ journals ∧ journal_id journal = id ∧ journal_book journal = book.
Proof.
  unfold findOne. intros Hhead%head_Some_elem_of.
  by apply list_elem_of_filter in Hhead as [[? ?] ?].
Qed.

Lemma findOne_None (id : ObjectId) (book : string) (journals : list IJournal) :
  findOne id book journals = None ↔
  ∀ journal, journal ∈ journals →
    ¬ (journal_id journal = id ∧ journal_book journal = book).
Proof.
  unfold findOne. rewrite head_None. split.
  - intros Hnil journal Hin Hmatch.
    assert (journal ∈ filter (fun j => journal_id j = id ∧ journal_book j = book) journals)
      as Hf by (by apply list_elem_of_filter).
    rewrite Hnil in Hf. by apply elem_of_nil in Hf.
  - intros Hnone.
    destruct (filter _ journals) as [|journal rest] eqn:Hf; [done|].
    assert (journal ∈ filter (fun j => journal_id j = id ∧ journal_book j = book) journals)
      as Hin by (rewrite Hf; by left).
    apply list_elem_of_filter in Hin as [Hmatch Hin]. by destruct (Hnone journal Hin).
Qed.

(** C7, as amended: for an identifier the store driver can cast (an
    identifier, or a string that denotes one; on any other string the
    cast fails the call with a [CastError]), [void] throws a
    JournalNotFoundError when no journal of this book has it (there is
    none, or it belongs to another book), and otherwise goes on to void
    a journal of this book that has it. *)
Theorem void_fetches_journal (this : Book) (id_argument : JournalId) (id : ObjectId)
    (reason : option string) (journals : list IJournal) :
  cast_id id_argument = Returns id →
  ((∀ journal, journal ∈ journals →
      ¬ (journal_id journal = id ∧ journal_book journal = name this)) →
   Book_void this id_argument reason journals = Throws JournalNotFoundError)
  ∧ ((∃ journal, journal ∈ journals
        ∧ journal_id journal = id ∧ journal_book journal = name this) →
     ∃ journal, journal ∈ journals
       ∧ journal_id journal = id ∧ journal_book journal = name this
       ∧ Book_void this id_argument reason journals = journal_void journal this reason).
Proof.
  intros Hcast. unfold Book_void. rewrite Hcast, bind_Returns. split.
  - intros Hnone%findOne_None. by rewrite Hnone.
  - intros (journal & Hin & Hid & Hbook).
    destruct (findOne id (name this) journals) as [found|] eqn:Hfound.
    + exists found. by apply findOne_Some in Hfound as (? & ? & ?).
    + rewrite findOne_None in Hfound. by destruct (Hfound journal Hin).
Qed.

End void_properties.

(** ** The account write-lock *)

Lemma first_index_snoc (account x : string) (accounts : list string) :
  first_index account (accounts ++ [x])
  = match first_index account accounts with
    | Some i => Some i
    | None => if decide (x = account) then Some (length accounts) else None
    end.
Proof.
  induction accounts as [|a accounts IH]; simpl.
  - by destruct (decide (x = account)).
  - destruct (decide (a = account)); [done|]. rewrite IH.
    destruct (first_index account accounts); simpl; [done|].
    by destruct (decide (x = account)).
Qed.

Lemma first_index_elem_of (account : string) (accounts : list string) :
  account ∈ accounts → ∃ i, first_index account accounts = Some i ∧ i < length accounts.
Proof.
  induction accounts as [|a accounts IH]; simpl; [by intros ?%elem_of_nil|].
  intros Hin. destruct (decide (a = account)) as [->|Hne]; [exists 0; split; [done|lia]|].
  apply elem_of_cons in Hin as [->|Hin]; [done|].
  destruct (IH Hin) as (i & -> & Hi). exists (S i). split; [done|lia].
Qed.

Lemma Set_from_snoc (accounts : list string) (x : string) :
  Set_from (accounts ++ [x])
  = if decide (x ∈ Set_from accounts) then Set_from accounts else Set_from accounts ++ [x].
Proof. unfold Set_from. by rewrite foldl_snoc. Qed.

(** The set holds the accounts of the list, each once. *)
Lemma Set_from_elem_of (accounts : list string) (account : string) :
  account ∈ Set_from accounts ↔ account ∈ accounts.
Proof.
  induction accounts as [|x accounts IH] using rev_ind; [done|].
  rewrite Set_from_snoc, elem_of_app, list_elem_of_singleton, <- IH.
  destruct (decide (x ∈ Set_from accounts)) as [Hx|Hx].
  - split; [by left | intros [?| ->]; done].
  - by rewrite elem_of_app, list_elem_of_singleton.
Qed.

Lemma Set_from_NoDup (accounts : list string) : NoDup (Set_from accounts).
Proof.
  induction accounts as [|x accounts IH] using rev_ind; [constructor|].
  rewrite Set_from_snoc. destruct (decide (x ∈ Set_from accounts)) as [Hx|Hx]; [done|].
  apply NoDup_app. split; [done|]. split; [|apply NoDup_singleton].
  intros y Hy ->%list_elem_of_singleton. done.
Qed.

(** The set lists the accounts in the order of their first occurrences. *)
Lemma Set_from_order (accounts : list string) (i j : nat) (a b : string) :
  Set_from accounts !! i = Some a → Set_from accounts !! j = Some b → i < j →
  ∃ i' j', first_index a accounts = Some i' ∧ first_index b accounts = Some j' ∧ i' < j'.
Proof.
  revert i j a b. induction accounts as [|x accounts IH] using rev_ind; intros i j a b.
  { unfold Set_from. simpl. by rewrite lookup_nil. }
  rewrite Set_from_snoc, !first_index_snoc.
  destruct (decide (x ∈ Set_from accounts)) as [Hx|Hx].
  - intros Ha Hb Hij. destruct (IH i j a b Ha Hb Hij) as (i' & j' & -> & -> & ?). eauto.
  - intros Ha Hb Hij.
    assert (i < length (Set_from accounts)) as Hi.
    { apply lookup_lt_Some in Hb. rewrite length_app in Hb. simpl in Hb. lia. }
    rewrite lookup_app_l in Ha by done.
    destruct (decide (j < length (Set_from accounts))) as [Hj|Hj].
    + rewrite lookup_app_l in Hb by done.
      destruct (IH i j a b Ha Hb Hij) as (i' & j' & -> & -> & ?). eauto.
    + rewrite lookup_app_r in Hb by lia.
      apply list_lookup_singleton_Some in Hb as [_ <-].
      assert (a ∈ accounts) as Hin
        by (apply Set_from_elem_of; by eapply list_elem_of_lookup_2).
      destruct (first_index_elem_of a accounts Hin) as (i' & -> & Hi').
      assert (first_index x accounts = None) as ->.
      { destruct (first_index x accounts) as [k|] eqn:Hk; [|done].
        exfalso. apply Hx, Set_from_elem_of. clear -Hk. revert k Hk.
        induction accounts as [|y accounts IH]; simpl; [done|]. intros k.
        destruct (decide (y = x)) as [->|]; [intros; by left|].
        destruct (first_index x accounts); [|done]. intros _. right. by eapply IH. }
      rewrite decide_True by done. eauto.
Qed.

Lemma lock_each_upserted (book : string) (accounts : list string) (clock : nat → Date)
    (tick : nat) (locks : Locks) :
  (lock_each book accounts clock tick locks).1 = accounts.
Proof.
  revert tick locks. induction accounts as [|a accounts IH]; intros tick locks; simpl; [done|].
  specialize (IH (S tick) (upsert_lock book a (clock tick) locks)).
  destruct (lock_each book accounts clock (S tick) _). simpl in *. by rewrite IH.
Qed.

Lemma upsert_lock_lookup (book account : string) (now : Date) (locks : Locks) :
  upsert_lock book account now locks !! (book, account)
  = Some {| updatedAt := now; __v := revision locks book account + 1 |}.
Proof.
  unfold upsert_lock, revision.
  destruct (locks !! (book, account)); by rewrite lookup_insert_eq.
Qed.

Lemma upsert_lock_frame (book account : string) (now : Date) (locks : Locks)
    (key : string * string) :
  key ≠ (book, account) → upsert_lock book account now locks !! key = locks !! key.
Proof.
  intros Hne. unfold upsert_lock.
  destruct (locks !! (book, account)); by rewrite lookup_insert_ne.
Qed.

(** The loop touches no lock but those of the accounts it is given. *)
Lemma lock_each_frame (book : string) (accounts : list string) (clock : nat → Date)
    (tick : nat) (locks : Locks) (b a : string) :
  b ≠ book ∨ a ∉ accounts →
  (lock_each book accounts clock tick locks).2 !! (b, a) = locks !! (b, a).
Proof.
  revert tick locks. induction accounts as [|x accounts IH]; intros tick locks Hne; simpl; [done|].
  specialize (IH (S tick) (upsert_lock book x (clock tick) locks)).
  destruct (lock_each book accounts clock (S tick) _) as [upserted locks']. simpl in *.
  rewrite IH.
  - apply upsert_lock_frame. intros [= -> ->]. destruct Hne as [?|Hne]; [done|].
    apply Hne. by left.
  - destruct Hne as [?|Hne]; [by left | right]. intros ?. apply Hne. by right.
Qed.

(** The [i]-th account of a list without repetition is upserted at the
    [i]-th reading of the clock, and once. *)
Lemma lock_each_lookup (book : string) (accounts : list string) (clock : nat → Date)
    (tick : nat) (locks : Locks) (i : nat) (a : string) :
  NoDup accounts → accounts !! i = Some a →
  (lock_each book accounts clock tick locks).2 !! (book, a)
  = Some {| updatedAt := clock (tick + i); __v := revision locks book a + 1 |}.
Proof.
  revert tick locks i.
  induction accounts as [|x accounts IH]; intros tick locks i Hnd Hi; [done|].
  apply NoDup_cons in Hnd as [Hx Hnd]. simpl.
  pose proof (lock_each_frame book accounts clock (S tick)
                (upsert_lock book x (clock tick) locks) book x (or_intror Hx)) as Hframe.
  specialize (IH (S tick) (upsert_lock book x (clock tick) locks)).
  destruct (lock_each book accounts clock (S tick) _) as [upserted locks']. simpl in *.
  destruct i as [|i]; simpl in Hi.
  - injection Hi as ->. rewrite Hframe, upsert_lock_lookup. by rewrite Nat.add_0_r.
  - rewrite (IH i Hnd Hi). replace (tick + S i) with (S (tick + i)) by lia.
    assert (revision (upsert_lock book x (clock tick) locks) book a = revision locks book a)
      as ->; [|done].
    unfold revision. rewrite upsert_lock_frame; [done|].
    intros [= ->]. apply Hx. by eapply list_elem_of_lookup_2.
Qed.

(** C9: [writelockAccounts] makes one upsert for each distinct account of
    the list, in the order of the first occurrences; the upsert of an
    account raises the revision counter of its lock by one (from 0 for a
    lock that did not exist) and sets [updatedAt] to the clock's reading
    at that upsert; no other lock changes. *)
Theorem writelockAccounts_upserts (this : Book) (accounts : list string)
    (clock : nat → Date) (locks : Locks) :
  let upserted := (Book_writelockAccounts this accounts clock locks).1 in
  let locks' := (Book_writelockAccounts this accounts clock locks).2 in
  NoDup upserted
  ∧ (∀ a, a ∈ upserted ↔ a ∈ accounts)
  ∧ (∀ i j a b, upserted !! i = Some a → upserted !! j = Some b → i < j →
       ∃ i' j', first_index a accounts = Some i' ∧ first_index b accounts = Some j'
                ∧ i' < j')
  ∧ (∀ i a, upserted !! i = Some a →
       locks' !! (name this, a)
       = Some {| updatedAt := clock i; __v := revision locks (name this) a + 1 |})
  ∧ (∀ b a, b ≠ name this ∨ a ∉ accounts → locks' !! (b, a) = locks !! (b, a)).
Proof.
  simpl. unfold Book_writelockAccounts. rewrite lock_each_upserted.
  split; [apply Set_from_NoDup|]. split; [apply Set_from_elem_of|].
  split; [apply Set_from_order|]. split.
  - intros i a Hi. by rewrite (lock_each_lookup _ _ _ _ _ i a (Set_from_NoDup accounts) Hi).
  - intros b a Hne. apply lock_each_frame. by rewrite Set_from_elem_of.
Qed.

(** * The sample ledger *)

Section sample_ledger.
Import Sample.
Let no_snapshot : Models := models None.
Let snapshot_after_1 : Models :=
  models (Some {| snapshot_balance := (-100)%float;
                  transaction := id 1;
                  createdAt := mkDate 1000 |}).

Ltac decided :=
  match goal with
  | |- ?P => apply (bool_decide_unpack P); vm_compute; exact I
  end.

Ltac computed :=
  lazymatch goal with
  | |- _ = ?y => vm_cast_no_check (@eq_refl _ y)
  end.

Let under_Assets : FilterQuery :=
  {[ "accounts" := FValue (VString "Assets"); "book" := FValue (VString "main") ]}.

(** The prototype guard at work: C2 fails as stated on the pair
    [constructor: "x"], which is neither at top level nor under
    [meta]. *)
Lemma constructor_pair_not_routed :
  isValidTransactionKey "constructor" = false
  ∧ parseQuery [("account", VString "Assets"); ("constructor", VString "x")] main
    = Returns under_Assets
  ∧ under_Assets !! "constructor" = None
  ∧ under_Assets !! "meta" = None.
Proof. split; [computed|]. split; [computed|]. split; computed. Qed.

Lemma extra_pair_routed_witness :
  let query := [("account", VString "Assets");
                ("_journal", VString "0123456789abcdef01234567");
                ("tag", VString "x")] in
  let filterQuery :=
    <["meta" := FObject {[ "tag" := FValue (VString "x") ]}]>
      (<["_journal" := FValue (VObjectId (mkObjectId "0123456789abcdef01234567"))]>
         under_Assets) in
  parseQuery query main = Returns filterQuery
  ∧ ∃ newValue, coerced "tag" (VString "x") newValue ∧ routed filterQuery "tag" newValue.
Proof.
  intros query filterQuery.
  assert (parseQuery query main = Returns filterQuery) as Hparse by computed.
  split; [exact Hparse|].
  apply (extra_pair_routed main query filterQuery "tag" (VString "x")).
  - decided.
  - decided.
  - apply list_elem_of_filter. split; [decided|]. right. right. left.
  - computed.
  - exact Hparse.
Defined.

(** Why the amended C2 asks for a query without a key [meta]: [meta] is
    itself a column, so a pair under that key takes the place of the
    object the earlier pairs were nested in, and a pair that follows a
    primitive value under [meta] cannot be nested in it. *)
Example meta_key_replaces_nested :
  parseQuery [("foo", VNumber 1); ("meta", VString "x")] main
  = Returns {[ "book" := FValue (VString "main"); "meta" := FValue (VString "x") ]}
  ∧ parseQuery [("meta", VString "x"); ("foo", VNumber 1)] main = Throws TypeError.
Proof. split; computed. Qed.

(** C4 fails as stated on a query that also has a key [datetime], a
    column: the value under that key takes the place of the range. *)
Lemma datetime_key_replaces_range :
  isValidTransactionKey "datetime" = true
  ∧ parseQuery [("start_date", VNumber 1000); ("end_date", VNumber 2000);
                ("datetime", VNumber 5)] main
    = Returns {[ "book" := FValue (VString "main"); "datetime" := FValue (VNumber 5) ]}.
Proof. split; computed. Qed.

(** The epoch itself is not taken for a date: the range has no lower
    bound. *)
Lemma epoch_zero_is_no_bound :
  parseQuery [("start_date", VNumber 0); ("end_date", VNumber 2000)] main
  = Returns {[ "book" := FValue (VString "main");
               "datetime" := FObject {[ "$lte" := FValue (VDate (mkDate 2000)) ]} ]}.
Proof. computed. Qed.

Lemma date_range_compiled_witness :
  let query := [("account", VString "Assets"); ("start_date", VString "2024-05-01");
                ("end_date", VNumber 1719792000000)] in
  let range :=
    FObject {[ "$gte" := FValue (VDate (mkDate 1714521600000));
               "$lte" := FValue (VDate (mkDate 1719792000000)) ]} in
  truthy (VString "2024-05-01") = true
  ∧ truthy (VNumber 1719792000000) = true
  ∧ ("datetime" ∉ keys query)
  ∧ parseQuery query main = Returns (<["datetime" := range]> under_Assets)
  ∧ (<["datetime" := range]> under_Assets) !! "datetime" = Some range.
Proof.
  intros query range.
  assert (parseQuery query main = Returns (<["datetime" := range]> under_Assets)) as Hparse
    by computed.
  split; [computed|]. split; [computed|]. split; [decided|]. split; [exact Hparse|].
  refine (proj2 (date_range_compiled main query (VString "2024-05-01")
                   (VNumber 1719792000000) (mkDate 1714521600000) (mkDate 1719792000000)
                   _ _ _ _ _ _ _) _ Hparse).
  - computed.
  - computed.
  - computed.
  - computed.
  - exact (date_string "2024-05-01" eq_refl).
  - exact (numeric_epoch 1719792000000).
  - decided.
Defined.

Lemma prototype_keys_dropped_witness :
  let query := [("account", VString "Assets"); ("__proto__", VString "x");
                ("tag", VNumber 1)] in
  let filterQuery :=
    <["meta" := FObject {[ "tag" := FValue (VNumber 1) ]}]> under_Assets in
  "__proto__" ∈ prototype_names
  ∧ parseQuery query main
    = parseQuery [("account", VString "Assets"); ("tag", VNumber 1)] main
  ∧ parseQuery query main = Returns filterQuery
  ∧ absent filterQuery "__proto__".
Proof.
  intros query filterQuery.
  assert ("__proto__" ∈ prototype_names) as Hkey by decided.
  assert (parseAccountField (get query "account") (maxAccountPath main)
          = Returns {[ "accounts" := FValue (VString "Assets") ]}) as Hfields by computed.
  assert (∀ accountFields,
            parseAccountField (get query "account") (maxAccountPath main)
            = Returns accountFields → absent accountFields "__proto__") as Haccount.
  { intros accountFields. rewrite Hfields. intros [= <-]. split.
    - by apply lookup_singleton_ne.
    - intros meta. by rewrite lookup_singleton_ne. }
  assert (parseQuery query main = Returns filterQuery) as Hparse by computed.
  destruct (prototype_keys_dropped main query "__proto__" Hkey Haccount) as [Hsame Habsent].
  split; [exact Hkey|]. split; [exact Hsame|]. split; [exact Hparse|].
  exact (Habsent filterQuery Hparse).
Defined.

(** The snapshot scenario of the specification: the store holds a
    snapshot of -100 that ends with the first posting; the aggregation
    runs over the two later postings under [Assets], which add -32. *)
Lemma balance_is_snapshot_plus_delta_witness :
  let query := [("account", VString "Assets")] in
  parseQuery query main = Returns under_Assets
  ∧ getBestSnapshot (Models := snapshot_after_1)
      {| key_book := under_Assets !! "book";
         key_account := Some (VString "Assets");
         key_meta := under_Assets !! "meta" |}
    = Some {| snapshot_balance := (-100)%float; transaction := id 1;
              createdAt := mkDate 1000 |}
  ∧ ∃ result snapshots,
      Book_balance (H4 := snapshot_after_1) main query 0 ledger_2024
      = Returns (result, snapshots)
      ∧ Js.same_number (balance result) (-132) = true
      ∧ notes result = 2.
Proof.
  intros query.
  assert (parseQuery query main = Returns under_Assets) as Hparse by computed.
  split; [exact Hparse|]. split; [computed|].
  destruct (balance_is_snapshot_plus_delta (H4 := snapshot_after_1) main query 0 ledger_2024
              under_Assets Hparse)
    as (result & snapshots & Hbalance & Hsum & Hnotes & _).
  - intros _. exists "-32.00000000". computed.
  - exists result, snapshots. split; [exact Hbalance|]. split.
    + vm_cast_no_check Hsum.
    + rewrite Hnotes. computed.
Defined.

(** The snapshot-refresh scenario: the store holds a snapshot of an hour
    ago that ends with the first posting; the query adds the two later
    postings under [Assets] and writes a new snapshot, to expire in 120
    seconds. *)
Lemma snapshot_refreshed_witness :
  let query := [("account", VString "Assets")] in
  Js.truthy_number (balanceSnapshotSec main) = true
  ∧ parseQuery query main = Returns under_Assets
  ∧ ∃ result snapshots,
      Book_balance (H4 := snapshot_after_1) main query 3600000 ledger_2024
      = Returns (result, snapshots)
      ∧ notes result = 2
      ∧ snapshots ≠ []
      ∧ ∀ written, written ∈ snapshots → expireInSec written = 120%float.
Proof.
  intros query.
  assert (Js.truthy_number (balanceSnapshotSec main) = true) as Henabled by computed.
  assert (parseQuery query main = Returns under_Assets) as Hparse by computed.
  split; [exact Henabled|]. split; [exact Hparse|].
  destruct (snapshot_refreshed (H4 := snapshot_after_1) main query 3600000 ledger_2024
              under_Assets Henabled Hparse)
    as (_ & _ & result & snapshots & Hbalance & Hnotes & Hwritten & Hexpire).
  - intros _. exists "-32.00000000". computed.
  - exists result, snapshots. split; [exact Hbalance|]. split; [|split].
    + rewrite Hnotes. computed.
    + apply Hwritten. split; [computed|].
      assert (∀ l : list ITransaction, length l = 2 → l ≠ []) as Hlength
        by (by intros [|]).
      apply Hlength. computed.
    + intros written Hin. destruct (Hexpire written Hin) as (_ & -> & _). computed.
Defined.

(** C5 fails as stated on a page below zero: the number of documents to
    skip is not kept from falling below zero. *)
Lemma ledger_negative_page :
  let query := [("perPage", VNumber 10); ("page", VNumber (-1))] in
  paginate query = (Some (-20)%float, 10%float, [])
  ∧ (Math_max 0 (-1 - 1) * 10)%float = 0%float
  ∧ ledger_request main [] (Some (-20)%float) 10%float None
    = Returns {| find_filter := {[ "book" := FValue (VString "main") ]};
                 find_sort := [("datetime", (-1)%Z); ("timestamp", (-1)%Z)];
                 find_window := Some ((-20)%float, 10%float);
                 find_populate := [] |}.
Proof. intros query. split; [computed|]. split; computed. Qed.

(** Pages of two postings under [Income]: the second page holds the
    first posting, the oldest, and the total is three on every page. *)
Lemma ledger_page_witness :
  let query := [("account", VString "Income"); ("perPage", VNumber 2); ("page", VNumber 2)] in
  let under_Income : FilterQuery :=
    {[ "accounts" := FValue (VString "Income"); "book" := FValue (VString "main") ]} in
  get query "perPage" = Some (VNumber 2)
  ∧ truthy (VNumber 2) = true
  ∧ parseQuery [("account", VString "Income")] main = Returns under_Income
  ∧ Book_ledger main query None ledger_2024
    = ([("account", VString "Income")],
       Returns {| results := [posting 2 "Income:Sales" 0 100 "2024-01-01"]; total := 3 |}).
Proof.
  intros query under_Income.
  assert (get query "perPage" = Some (VNumber 2)) as HperPage by computed.
  assert (truthy (VNumber 2) = true) as Htruthy by computed.
  assert (parseQuery [("account", VString "Income")] main = Returns under_Income) as Hparse
    by computed.
  split; [exact HperPage|]. split; [exact Htruthy|]. split; [exact Hparse|].
  assert (parseQuery (delete_property "page" (delete_property "perPage" query)) main
          = Returns under_Income) as Hparse' by computed.
  destruct (ledger_page main query None ledger_2024 (VNumber 2) under_Income
              HperPage Htruthy Hparse') as (_ & Hpage & _).
  rewrite (Hpage 2%N 2%positive); [computed|computed|computed].
Defined.

(** C3 fails as stated when [toFixed] refuses the precision of the
    book.  The constructor accepts a precision of 101 digits; with
    snapshots enabled, no snapshot in the store (so that a refresh is
    due) and three transactions that match, [balance] writes no
    snapshot: it throws a [RangeError]. *)
Lemma snapshot_not_written_out_of_range :
  let precise :=
    {| name := "main"; precision := 101; maxAccountPath := 3; balanceSnapshotSec := 60 |} in
  let query := [("account", VString "Assets")] in
  Book_constructor (Js.Str "main")
    {| opt_precision := Js.Number 101; opt_maxAccountPath := Js.Undefined;
       opt_balanceSnapshotSec := Js.Number 60 |}
  = Returns precise
  ∧ Js.truthy_number (balanceSnapshotSec precise) = true
  ∧ parseQuery query precise = Returns under_Assets
  ∧ getBestSnapshot (Models := no_snapshot)
      {| key_book := under_Assets !! "book";
         key_account := Some (VString "Assets");
         key_meta := under_Assets !! "meta" |}
    = None
  ∧ length (filter (fun t => matches under_Assets t = true) ledger_2024) = 3
  ∧ toFixed (-132) 101 = None
  ∧ Book_balance (H4 := no_snapshot) precise query 0 ledger_2024 = Throws RangeError.
Proof.
  intros precise query. split; [computed|]. split; [computed|]. split; [computed|].
  split; [computed|]. split; [computed|]. split; computed.
Qed.

(** The date-range scenario of the specification: of the postings of
    January, June and December, the range from May to July holds those of
    June. *)
Example ledger_of_June :
  Book_ledger main [("start_date", VString "2024-05-01"); ("end_date", VString "2024-07-01")]
    None ledger_2024
  = ([("start_date", VString "2024-05-01"); ("end_date", VString "2024-07-01")],
     Returns {| results := [posting 3 "Assets:Cash" 25 0 "2024-06-01";
                            posting 4 "Income:Sales" 0 25 "2024-06-01"];
                total := 2 |}).
Proof. computed. Qed.

(** The prefix scenario: [Assets:Cash] does not see [Assets:Bank]. *)
Example balance_of_a_prefix :
  Book_balance (H4 := no_snapshot) main [("account", VString "Assets:Cash")] 0 ledger_2024
  = Returns ({| balance := -125; notes := 2 |},
             [ {| request_book := "main";
                  request_account := Some (VString "Assets:Cash");
                  request_meta := None;
                  request_transaction := id 3;
                  request_timestamp := Some (mkDate (parse_date "2024-06-01"));
                  request_balance := -125;
                  expireInSec := 120 |} ]).
Proof. computed. Qed.

(** A journal of another book is not found. *)
Lemma void_fetches_journal_witness :
  let journals := [ {| journal_id := id 1; journal_book := "main"; journal_voided := false |};
                    {| journal_id := id 2; journal_book := "other"; journal_voided := false |} ] in
  cast_id (IdString "000000000000000000000002") = Returns (id 2)
  ∧ Book_void (H4 := no_snapshot) main (IdString "000000000000000000000002") None journals
    = Throws JournalNotFoundError
  ∧ ∃ journal,
      Book_void (H4 := no_snapshot) main (IdString "000000000000000000000001") None journals
      = journal_void (Models := no_snapshot) journal main None
      ∧ journal_book journal = "main".
Proof.
  intros journals.
  assert (cast_id (IdString "000000000000000000000002") = Returns (id 2)) as Hcast2
    by computed.
  assert (cast_id (IdString "000000000000000000000001") = Returns (id 1)) as Hcast1
    by computed.
  split; [exact Hcast2|]. split.
  - apply (void_fetches_journal (H4 := no_snapshot) main
             (IdString "000000000000000000000002") (id 2) None journals Hcast2).
    intros journal Hin [Hid Hbook]. subst journals.
    apply elem_of_cons in Hin as [->|Hin]; [discriminate Hid|].
    apply list_elem_of_singleton in Hin as ->. discriminate Hbook.
  - destruct (void_fetches_journal (H4 := no_snapshot) main
                (IdString "000000000000000000000001") (id 1) None journals Hcast1)
      as [_ Hfound].
    destruct Hfound as (journal & _ & _ & Hbook & Hvoid).
    + eexists. split; [by left|]. split; reflexivity.
    + exists journal. split; [exact Hvoid | exact Hbook].
Defined.

(** C7 fails as stated on a string that is not an identifier: no
    journal has it, in this book or another, and [void] fails with the
    [CastError] of the driver, not with a JournalNotFoundError. *)
Lemma void_malformed_identifier :
  let journals := [ {| journal_id := id 1; journal_book := "main"; journal_voided := false |} ] in
  ObjectId_new "xyz" = None
  ∧ cast_id (IdString "xyz") = Throws CastError
  ∧ Book_void (H4 := no_snapshot) main (IdString "xyz") None journals = Throws CastError
  ∧ Book_void (H4 := no_snapshot) main (IdString "xyz") None [] = Throws CastError.
Proof. intros journals. split; [computed|]. split; [computed|]. split; computed. Qed.

End sample_ledger.

(** * Further properties *)

(** ** Listing the accounts *)

Lemma split_string_cons (sep : ascii) (s : string) :
  ∃ piece pieces, split_string sep s = piece :: pieces.
Proof.
  destruct s as [|c s]; simpl; [by eexists _, _|].
  destruct (decide (c = sep)); [by eexists _, _|].
  destruct (split_string sep s); by eexists _, _.
Qed.

Lemma concat_cons (sep x y : string) (l : list string) :
  String.concat sep (x :: y :: l) = (x ++ sep ++ String.concat sep (y :: l))%string.
Proof. reflexivity. Qed.

(** Joining the pieces of a string with the separator gives the string
    back. *)
Lemma join_split_string (sep : ascii) (s : string) :
  String.concat (String sep "") (split_string sep s) = s.
Proof.
  induction s as [|c s IH]; [done|]. simpl.
  destruct (split_string_cons sep s) as (piece & pieces & Hs). rewrite Hs in IH |- *.
  destruct (decide (c = sep)) as [->|Hc].
  - rewrite concat_cons, IH. done.
  - destruct pieces as [|p pieces]; simpl in *; by rewrite <- IH.
Qed.

(** The pieces of two strings put together with the separator are the
    pieces of the one and those of the other. *)
Lemma split_string_app (sep : ascii) (a rest : string) :
  split_string sep (a ++ String sep rest)%string
  = split_string sep a ++ split_string sep rest.
Proof.
  induction a as [|c a IH]; simpl.
  - by rewrite decide_True.
  - rewrite IH. destruct (decide (c = sep)); [done|].
    by destruct (split_string_cons sep a) as (piece & pieces & ->).
Qed.

Lemma string_append_assoc (a b c : string) : ((a ++ b) ++ c = a ++ (b ++ c))%string.
Proof. induction a as [|x a IH]; [done|]. change (String x ((a ++ b) ++ c) = String x (a ++ (b ++ c)))%string. by rewrite IH. Qed.

Lemma concat_app (sep : string) (l1 l2 : list string) :
  l1 ≠ [] → l2 ≠ [] →
  String.concat sep (l1 ++ l2)
  = (String.concat sep l1 ++ sep ++ String.concat sep l2)%string.
Proof.
  intros H1 H2. induction l1 as [|x l1 IH]; [done|].
  destruct l1 as [|y l1]; simpl.
  - by destruct l2.
  - simpl in IH. rewrite IH by done. by rewrite !string_append_assoc.
Qed.

Lemma add_paths_foldl (paths prev uniqueAccounts : list string) :
  add_paths paths prev uniqueAccounts
  = foldl Set_add uniqueAccounts (joined_prefixes prev paths).
Proof.
  revert prev uniqueAccounts. induction paths as [|acct paths IH]; intros; simpl; [done|].
  apply IH.
Qed.

Lemma joined_prefixes_elem_of (prev paths : list string) (x : string) :
  x ∈ joined_prefixes prev paths ↔
  ∃ k : nat, (1 ≤ k ≤ length paths)%nat ∧ x = String.concat ":" (prev ++ take k paths).
Proof.
  revert prev. induction paths as [|acct paths IH]; intros prev; simpl.
  - split; [by intros ?%elem_of_nil | intros (k & ? & _); lia].
  - rewrite elem_of_cons, IH. split.
    + intros [->|(k & Hk & ->)].
      * exists 1. split; [lia|]. done.
      * exists (S k). split; [lia|]. simpl. by rewrite <- app_assoc.
    + intros (k & Hk & ->). destruct k as [|[|k]]; [lia| |].
      * left. done.
      * right. exists (S k). split; [lia|]. simpl. by rewrite <- app_assoc.
Qed.

Lemma foldl_Set_add_elem_of (seen l : list string) (x : string) :
  x ∈ foldl Set_add seen l ↔ x ∈ seen ∨ x ∈ l.
Proof.
  revert seen. induction l as [|y l IH]; intros seen; simpl.
  - rewrite elem_of_nil. tauto.
  - rewrite IH, elem_of_cons. unfold Set_add.
    destruct (decide (y ∈ seen)) as [Hy|Hy].
    + split; [tauto | intros [?|[->|?]]; auto].
    + rewrite elem_of_app, list_elem_of_singleton. tauto.
Qed.

Lemma foldl_Set_add_NoDup (seen l : list string) :
  NoDup seen → NoDup (foldl Set_add seen l).
Proof.
  revert seen. induction l as [|y l IH]; intros seen Hnd; simpl; [done|].
  apply IH. unfold Set_add. destruct (decide (y ∈ seen)) as [Hy|Hy]; [done|].
  apply NoDup_app. split; [done|]. split; [|apply NoDup_singleton].
  intros z Hz ->%list_elem_of_singleton. done.
Qed.

(** [listAccounts] adds to one set the joined prefixes of every
    result. *)
Lemma Book_listAccounts_foldl (results : list string) :
  Book_listAccounts results
  = foldl Set_add [] (results ≫= fun result => joined_prefixes [] (split_string ":" result)).
Proof.
  unfold Book_listAccounts.
  cut (∀ seen : list string,
         foldl (fun (uniqueAccounts : list string) (result : string) =>
                  add_paths (split_string ":" result) [] uniqueAccounts) seen results
         = foldl Set_add seen
             (results ≫= fun result => joined_prefixes [] (split_string ":" result))); [done|].
  induction results as [|r results IH]; intros seen; [done|].
  rewrite bind_cons, foldl_app. simpl. by rewrite IH, add_paths_foldl.
Qed.

(** The joined prefixes of the pieces of a string are the accounts the
    string is within. *)
Lemma joined_prefixes_within (a r : string) :
  a ∈ joined_prefixes [] (split_string ":" r) ↔ within a r.
Proof.
  rewrite joined_prefixes_elem_of. unfold within. simpl. split.
  - intros (k & Hk & ->).
    destruct (decide (k = length (split_string ":" r))) as [->|Hne].
    + left. by rewrite firstn_all, join_split_string.
    + right. exists (String.concat ":" (drop k (split_string ":" r))).
      rewrite <- (join_split_string ":" r) at 1.
      rewrite <- (take_drop k (split_string ":" r)) at 1.
      apply concat_app.
      * intros Hnil%(f_equal length). rewrite length_take in Hnil. simpl in Hnil. lia.
      * intros Hnil%(f_equal length). rewrite length_drop in Hnil. simpl in Hnil. lia.
  - intros [->|(rest & ->)].
    + exists (length (split_string ":" r)). rewrite firstn_all, join_split_string.
      split; [|done]. destruct (split_string_cons ":" r) as (? & ? & ->). simpl. lia.
    + exists (length (split_string ":" a)).
      change (a ++ ":" ++ rest)%string with (a ++ String ":" rest)%string.
      rewrite split_string_app, take_app_length, join_split_string, length_app.
      split; [|done]. destruct (split_string_cons ":" a) as (? & ? & ->). simpl. lia.
Qed.

Lemma split_string_pieces (sep : ascii) (s piece : string) :
  piece ∈ split_string sep s → ∀ a b, piece ≠ (a ++ String sep b)%string.
Proof.
  revert piece. induction s as [|c s IH]; intros piece; simpl.
  - intros ->%list_elem_of_singleton [|x a] b; discriminate.
  - destruct (decide (c = sep)) as [->|Hc].
    + intros [->|Hin]%elem_of_cons; [intros [|x a] b; discriminate | by apply IH].
    + destruct (split_string_cons sep s) as (first & pieces & Hs). rewrite Hs in IH |- *.
      intros [->|Hin]%elem_of_cons.
      * intros [|x a] b; simpl; intros [= Hx Hrest]; [done|].
        by apply (IH first (list_elem_of_here _ _) a b).
      * apply IH. by right.
Qed.

(** Where a string ends with a separator and a piece without one, the
    separator is its last. *)
Lemma last_separator (sep : ascii) (a b c d : string) :
  (∀ x y, d ≠ (x ++ String sep y)%string) →
  (a ++ String sep b = c ++ String sep d)%string →
  (a = c ∧ b = d) ∨ ∃ b', (c = a ++ String sep b' ∧ b = b' ++ String sep d)%string.
Proof.
  intros Hd. revert c. induction a as [|x a IH]; intros [|y c]; simpl.
  - intros [= ->]. by left.
  - intros [= <- ->]. right. by exists c.
  - intros [= -> Hrest]. by destruct (Hd a b).
  - intros [= -> Hrest]. destruct (IH c Hrest) as [[-> ->]|(b' & -> & ->)]; [by left|].
    right. by exists b'.
Qed.

Lemma within_piece (acct p : string) :
  (∀ a b, acct ≠ (a ++ String ":" b)%string) → within p acct → p = acct.
Proof. intros Hfree [->|[rest ->]]; [done|]. by destruct (Hfree p rest). Qed.

Lemma within_snoc (prev : list string) (acct p : string) :
  prev ≠ [] → (∀ a b, acct ≠ (a ++ String ":" b)%string) →
  within p (String.concat ":" (prev ++ [acct])) →
  p = String.concat ":" (prev ++ [acct]) ∨ within p (String.concat ":" prev).
Proof.
  intros Hprev Hfree. rewrite concat_app by done. simpl.
  intros [->|[rest Hrest]]; [by left|]. right.
  symmetry in Hrest. apply (last_separator ":" p rest _ acct Hfree) in Hrest.
  destruct Hrest as [[-> _]|(b' & -> & _)]; [by left | right; by exists b'].
Qed.

Lemma add_paths_parents_first (paths prev uniqueAccounts : list string) :
  (∀ piece, piece ∈ paths → ∀ a b, piece ≠ (a ++ String ":" b)%string) →
  parents_first uniqueAccounts →
  (prev ≠ [] → ∀ p, within p (String.concat ":" prev) → p ∈ uniqueAccounts) →
  parents_first (add_paths paths prev uniqueAccounts).
Proof.
  revert prev uniqueAccounts.
  induction paths as [|acct paths IH]; intros prev seen Hfree Hseen Hprev; [done|].
  simpl. set (new := String.concat ":" (prev ++ [acct])).
  assert (∀ p, within p new → p = new ∨ p ∈ seen) as Hnew.
  { intros p Hp. destruct prev as [|x prev'].
    - left. apply within_piece; [|done]. apply Hfree. by left.
    - unfold new in Hp.
      apply within_snoc in Hp as [->|Hp]; [by left| |done|apply Hfree; by left].
      right. by apply Hprev. }
  apply IH.
  - intros piece Hin. apply Hfree. by right.
  - unfold Set_add. destruct (decide (new ∈ seen)) as [Hin|Hnotin]; [done|].
    intros i a p Hi Hp. destruct (decide (i < length seen)%nat) as [Hlt|Hge].
    + rewrite lookup_app_l in Hi by done. destruct (Hseen i a p Hi Hp) as (j & Hj & Hjp).
      exists j. split; [done|]. rewrite lookup_app_l; [done|]. lia.
    + rewrite lookup_app_r in Hi by lia.
      apply list_lookup_singleton_Some in Hi as [Hi <-].
      destruct (Hnew p Hp) as [->|Hin].
      * exists i. split; [done|]. rewrite lookup_app_r by lia.
        by replace (i - length seen)%nat with 0%nat by lia.
      * apply list_elem_of_lookup in Hin as [j Hj]. exists j.
        pose proof (lookup_lt_Some _ _ _ Hj). split; [lia|]. by rewrite lookup_app_l.
  - intros _ p Hp. unfold Set_add. fold new in Hp.
    destruct (Hnew p Hp) as [->|Hin]; destruct (decide (new ∈ seen)); try done.
    + apply elem_of_app. right. by apply list_elem_of_singleton.
    + apply elem_of_app. by left.
Qed.

(** X1: [listAccounts] returns exactly the accounts that a path the store
    returned is within: the path itself and every prefix of it that ends
    before a colon. *)
Theorem listAccounts_within (results : list string) (a : string) :
  a ∈ Book_listAccounts results ↔ ∃ r, r ∈ results ∧ within a r.
Proof.
  rewrite Book_listAccounts_foldl, foldl_Set_add_elem_of, elem_of_nil, list_elem_of_bind.
  setoid_rewrite joined_prefixes_within.
  split; [intros [[]|(r & Hw & Hr)]; eauto | intros (r & Hr & Hw); right; eauto].
Qed.

(** X2: [listAccounts] returns no account twice. *)
Theorem listAccounts_NoDup (results : list string) : NoDup (Book_listAccounts results).
Proof. rewrite Book_listAccounts_foldl. apply foldl_Set_add_NoDup. constructor. Qed.

(** X19: [listAccounts] lists every account after the accounts above
    it: an account that a listed account is within stands in the list at
    the same place or before. *)
Theorem listAccounts_parents_first (results : list string) (i : nat) (a p : string) :
  Book_listAccounts results !! i = Some a →
  within p a →
  ∃ j, (j ≤ i)%nat ∧ Book_listAccounts results !! j = Some p.
Proof.
  revert i a p. change (parents_first (Book_listAccounts results)).
  unfold Book_listAccounts.
  cut (∀ seen, parents_first seen →
         parents_first
           (foldl (fun (uniqueAccounts : list string) (result : string) =>
                     add_paths (split_string ":" result) [] uniqueAccounts) seen results)).
  { intros Hcut. apply Hcut. intros i a p Hi. by rewrite lookup_nil in Hi. }
  induction results as [|r results IH]; intros seen Hseen; [done|].
  simpl. apply IH. apply add_paths_parents_first; [|done|done].
  intros piece Hin. by apply (split_string_pieces ":" r).
Qed.

(** ** The query compiler, further *)

Section parseQuery_further.
Context `{Builtins, TransactionSchema, AccountField, PrototypeGuard}.

Lemma date_bound_Returns (operator : string) (date : option Value)
    (range range' : gmap string FilterValue) :
  date_bound operator date range = Returns range' →
  if truthy_opt date
  then ∃ v d, date = Some v ∧ parseDateField v = Returns d
              ∧ range' = <[operator := FValue (VDate d)]> range
  else range' = range.
Proof.
  unfold date_bound. destruct date as [v|]; simpl; [|by intros [= <-]].
  destruct (truthy v); [|by intros [= <-]].
  destruct (parseDateField v) as [d|e] eqn:Hd; [|done]. rewrite bind_Returns.
  intros [= <-]. by exists v, d.
Qed.

(** The three stages of a compilation that returns: the account part
    with the book, the range on [datetime], the loop over the other
    keys. *)
Lemma parseQuery_Returns (this : Book) (query : Query) (filterQuery : FilterQuery) :
  parseQuery query this = Returns filterQuery →
  ∃ accountFields ranged,
    parseAccountField (get query "account") (maxAccountPath this) = Returns accountFields
    ∧ (if truthy_opt (get query "start_date") || truthy_opt (get query "end_date")
       then ∃ range1 range,
              date_bound "$gte" (get query "start_date") ∅ = Returns range1
              ∧ date_bound "$lte" (get query "end_date") range1 = Returns range
              ∧ ranged = <["datetime" := FObject range]>
                           (accountFields ∪ {[ "book" := FValue (VString (name this)) ]})
       else ranged = accountFields ∪ {[ "book" := FValue (VString (name this)) ]})
    ∧ foldM parseQuery_entry (extra_of query) ranged = Returns filterQuery.
Proof.
  unfold parseQuery.
  destruct (parseAccountField _ _) as [accountFields|e]; [|done]. rewrite bind_Returns.
  destruct (truthy_opt (get query "start_date") || truthy_opt (get query "end_date")).
  - destruct (date_bound "$gte" _ _) as [range1|e] eqn:Hgte; [|done]. rewrite bind_Returns.
    destruct (date_bound "$lte" _ _) as [range|e] eqn:Hlte; [|done]. rewrite !bind_Returns.
    intros Hloop. eexists _, _. split; [done|]. split; [|exact Hloop]. by eexists _, _.
  - rewrite bind_Returns. intros Hloop. by eexists _, _.
Qed.

(** X3: a compiled filter selects the book it was compiled for: unless
    the query has a key [book] of its own or the account part sets one,
    the field [book] of the filter is the name of the book. *)
Theorem parseQuery_book (this : Book) (query : Query)
    (accountFields filterQuery : FilterQuery) :
  parseAccountField (get query "account") (maxAccountPath this) = Returns accountFields →
  accountFields !! "book" = None →
  "book" ∉ keys query →
  parseQuery query this = Returns filterQuery →
  filterQuery !! "book" = Some (FValue (VString (name this))).
Proof.
  intros Haccount Hnone Hkey (accountFields' & ranged & Ha & Hranged & Hloop)%parseQuery_Returns.
  rewrite Haccount in Ha. injection Ha as <-.
  rewrite (parseQuery_extra_frame _ _ _ "book" Hloop); [| |done].
  - transitivity ((accountFields ∪ {[ "book" := FValue (VString (name this)) ]}) !! "book").
    + destruct (truthy_opt _ || truthy_opt _).
      * destruct Hranged as (? & ? & _ & _ & ->). by rewrite lookup_insert_ne.
      * by subst.
    + rewrite lookup_union_r by done. by rewrite lookup_singleton_eq.
  - intros Hin. apply Hkey. by apply keys_extra_of.
Qed.

(** X4: the range on [datetime].  When a date of the query holds, the
    filter has an object under [datetime] with a lower bound [$gte]
    exactly when [start_date] holds and an upper bound [$lte] exactly
    when [end_date] holds, each the date that was parsed, and no other
    operator.  When neither holds, the compiler adds no range: [datetime]
    is as the account part has it. *)
Theorem date_range_bounds (this : Book) (query : Query)
    (accountFields filterQuery : FilterQuery) :
  parseAccountField (get query "account") (maxAccountPath this) = Returns accountFields →
  "datetime" ∉ keys query →
  parseQuery query this = Returns filterQuery →
  if truthy_opt (get query "start_date") || truthy_opt (get query "end_date")
  then ∃ range,
         filterQuery !! "datetime" = Some (FObject range)
         ∧ (if truthy_opt (get query "start_date")
            then ∃ v d, get query "start_date" = Some v ∧ parseDateField v = Returns d
                        ∧ range !! "$gte" = Some (FValue (VDate d))
            else range !! "$gte" = None)
         ∧ (if truthy_opt (get query "end_date")
            then ∃ v d, get query "end_date" = Some v ∧ parseDateField v = Returns d
                        ∧ range !! "$lte" = Some (FValue (VDate d))
            else range !! "$lte" = None)
         ∧ ∀ operator, operator ≠ "$gte" → operator ≠ "$lte" → range !! operator = None
  else filterQuery !! "datetime" = accountFields !! "datetime".
Proof.
  intros Haccount Hkey (accountFields' & ranged & Ha & Hranged & Hloop)%parseQuery_Returns.
  rewrite Haccount in Ha. injection Ha as <-.
  rewrite (parseQuery_extra_frame _ _ _ "datetime" Hloop); [| |done].
  2: { intros Hin. apply Hkey. by apply keys_extra_of. }
  destruct (truthy_opt (get query "start_date") || truthy_opt (get query "end_date")).
  - destruct Hranged as (range1 & range & Hgte%date_bound_Returns & Hlte%date_bound_Returns & ->).
    exists range. split; [by rewrite lookup_insert_eq|].
    destruct (truthy_opt (get query "start_date"));
      destruct (truthy_opt (get query "end_date")).
    + destruct Hgte as (v1 & d1 & Hv1 & Hd1 & ->), Hlte as (v2 & d2 & Hv2 & Hd2 & ->).
      split; [exists v1, d1; by rewrite lookup_insert_ne, lookup_insert_eq|].
      split; [exists v2, d2; by rewrite lookup_insert_eq|].
      intros operator ? ?. by rewrite !lookup_insert_ne.
    + destruct Hgte as (v1 & d1 & Hv1 & Hd1 & ->). subst range.
      split; [exists v1, d1; by rewrite lookup_insert_eq|].
      split; [by rewrite lookup_insert_ne|].
      intros operator ? ?. by rewrite !lookup_insert_ne.
    + destruct Hlte as (v2 & d2 & Hv2 & Hd2 & ->). subst range1.
      split; [by rewrite lookup_insert_ne|].
      split; [exists v2, d2; by rewrite lookup_insert_eq|].
      intros operator ? ?. by rewrite !lookup_insert_ne.
    + subst. done.
  - subst ranged. rewrite lookup_union_l; [done|]. by rewrite lookup_singleton_ne.
Qed.

(** X5: a date the parser refuses fails the compilation with the error
    of the parser.  This holds for a [start_date] that holds, and for an
    [end_date] that holds when the [start_date] is absent, does not hold
    or was accepted. *)
Theorem refused_date_fails (this : Book) (query : Query) (accountFields : FilterQuery)
    (v : Value) (e : Error) :
  parseAccountField (get query "account") (maxAccountPath this) = Returns accountFields →
  truthy v = true →
  parseDateField v = Throws e →
  (get query "start_date" = Some v → parseQuery query this = Throws e)
  ∧ (get query "end_date" = Some v →
     (∀ s, get query "start_date" = Some s → truthy s = true →
           ∃ d, parseDateField s = Returns d) →
     parseQuery query this = Throws e).
Proof.
  intros Haccount Hv He. unfold parseQuery. rewrite Haccount, bind_Returns. split.
  - intros ->. simpl. by rewrite Hv, He.
  - intros -> Hstart. simpl. rewrite Hv, orb_true_r, He.
    destruct (get query "start_date") as [s|]; simpl; [|done].
    destruct (truthy s) eqn:Hs; [|done].
    destruct (Hstart s eq_refl Hs) as [d ->]. done.
Qed.

Lemma foldM_steps {A B} (step : B → A → Outcome B) (l : list A) (b b' : B) (a : A) :
  foldM step l b = Returns b' → a ∈ l → ∃ b1 b2, step b1 a = Returns b2.
Proof.
  revert b. induction l as [|x l IH]; intros b Hfold Ha; [by apply elem_of_nil in Ha|].
  rewrite foldM_cons in Hfold. destruct (step b x) as [b1|e] eqn:Hstep; [|done].
  rewrite bind_Returns in Hfold. apply elem_of_cons in Ha as [->|Ha]; eauto.
Qed.

(** X6: a string that is not an identifier, under an identifier column
    the guard lets through, never compiles: whatever else the query
    holds, [parseQuery] throws. *)
Theorem malformed_identifier_fails (this : Book) (query : Query) (key s : string) :
  (key, VString s) ∈ extra_of query →
  isPrototypeAttribute key = false →
  isTransactionObjectIdKey key = true →
  ObjectId_new s = None →
  ∃ e, parseQuery query this = Throws e.
Proof.
  intros Hin Hguard Hcolumn Hnew.
  destruct (parseQuery query this) as [filterQuery|e] eqn:Hparse; [|by exists e].
  apply parseQuery_Returns in Hparse as (accountFields & ranged & _ & _ & Hloop).
  destruct (foldM_steps _ _ _ _ _ Hloop Hin) as (b1 & b2 & Hstep).
  unfold parseQuery_entry, coerce in Hstep. by rewrite Hguard, Hcolumn, Hnew in Hstep.
Qed.

Lemma coerce_Returns_coerced (key : string) (value : Value) :
  ∀ newValue, coerce key value = Returns newValue → coerced key value newValue.
Proof.
  intros newValue. unfold coerce, coerced. destruct value; try by intros [= <-].
  destruct (isTransactionObjectIdKey key); [|by intros [= <-]].
  destruct (ObjectId_new s) as [o|]; [|done]. intros [= <-]. by exists o.
Qed.

(** X8: the filter has no field the query did not ask for.  A field at
    the top level of a compiled filter comes from the account part, or
    is [book], or is [datetime] when a date holds, or is [meta] when some
    key of the query is not a column, or is a column among the other
    keys of the query. *)
Theorem filter_fields_asked_for (this : Book) (query : Query)
    (accountFields filterQuery : FilterQuery) (k : string) :
  parseAccountField (get query "account") (maxAccountPath this) = Returns accountFields →
  parseQuery query this = Returns filterQuery →
  is_Some (filterQuery !! k) →
  is_Some (accountFields !! k)
  ∨ k = "book"
  ∨ (k = "datetime"
     ∧ truthy_opt (get query "start_date") || truthy_opt (get query "end_date") = true)
  ∨ (k = "meta"
     ∧ ∃ key, key ∈ keys (extra_of query)
              ∧ isValidTransactionKey key = false ∧ isPrototypeAttribute key = false)
  ∨ (k ∈ keys (extra_of query)
     ∧ isValidTransactionKey k = true ∧ isPrototypeAttribute k = false).
Proof.
  intros Haccount (accountFields' & ranged & Ha & Hranged & Hloop)%parseQuery_Returns.
  rewrite Haccount in Ha. injection Ha as <-. revert k.
  pattern filterQuery. eapply foldM_invariant; [| |exact Hloop]; cbv beta.
  - intros [key value] f1 f2 Hin IH Hstep k Hk.
    assert (key ∈ keys (extra_of query)) as Hkey.
    { apply list_elem_of_fmap. by exists (key, value). }
    unfold parseQuery_entry in Hstep.
    destruct (isPrototypeAttribute key) eqn:Hguard; [injection Hstep as <-; auto|].
    destruct (coerce key value) as [newValue|e]; [|done]. rewrite bind_Returns in Hstep.
    destruct (isValidTransactionKey key) eqn:Hcolumn.
    + injection Hstep as <-. destruct (decide (k = key)) as [->|Hne]; [by auto 10|].
      rewrite lookup_insert_ne in Hk by done. auto.
    + destruct (assign _ key _) as [m|e]; [|done]. rewrite bind_Returns in Hstep.
      injection Hstep as <-. destruct (decide (k = "meta")) as [->|Hne].
      * right. right. right. left. split; [done|]. by exists key.
      * rewrite lookup_insert_ne in Hk by done. auto.
  - intros k Hk. destruct (truthy_opt _ || truthy_opt _).
    + destruct Hranged as (range1 & range & _ & _ & ->).
      destruct (decide (k = "datetime")) as [->|Hne]; [by auto|].
      rewrite lookup_insert_ne in Hk by done.
      apply lookup_union_is_Some in Hk as [?|Hk]; [by left|].
      right. left. apply lookup_singleton_is_Some in Hk. done.
    + subst ranged. apply lookup_union_is_Some in Hk as [?|Hk]; [by left|].
      right. left. apply lookup_singleton_is_Some in Hk. done.
Qed.

(** X9: nor has [meta] a field the query did not ask for.  When neither
    the account part nor the query sets [meta], every field under [meta]
    of a compiled filter is a key of the query that is not a column and
    that the guard lets through, with the value the query gives it. *)
Theorem meta_fields_asked_for (this : Book) (query : Query)
    (accountFields filterQuery : FilterQuery) (meta field : FilterValue) (key : string) :
  parseAccountField (get query "account") (maxAccountPath this) = Returns accountFields →
  accountFields !! "meta" = None →
  "meta" ∉ keys query →
  parseQuery query this = Returns filterQuery →
  filterQuery !! "meta" = Some meta →
  field_of meta key = Some field →
  ∃ value newValue,
    (key, value) ∈ extra_of query
    ∧ isValidTransactionKey key = false ∧ isPrototypeAttribute key = false
    ∧ coerced key value newValue ∧ field = FValue newValue.
Proof.
  intros Haccount Hnone Hmeta (accountFields' & ranged & Ha & Hranged & Hloop)%parseQuery_Returns.
  rewrite Haccount in Ha. injection Ha as <-. revert meta field key.
  cut (∀ meta, filterQuery !! "meta" = Some meta →
         (∃ fields, meta = FObject fields)
         ∧ ∀ field key, field_of meta key = Some field →
             ∃ value newValue,
               (key, value) ∈ extra_of query
               ∧ isValidTransactionKey key = false ∧ isPrototypeAttribute key = false
               ∧ coerced key value newValue ∧ field = FValue newValue).
  { intros Hcut meta field key Hm Hf. by apply (Hcut meta Hm). }
  pattern filterQuery. eapply foldM_invariant; [| |exact Hloop]; cbv beta.
  - intros [k value] f1 f2 Hin IH Hstep.
    assert (k ≠ "meta") as Hk.
    { intros ->. apply Hmeta, keys_extra_of, list_elem_of_fmap. by exists ("meta", value). }
    unfold parseQuery_entry in Hstep.
    destruct (isPrototypeAttribute k) eqn:Hguard; [by injection Hstep as <-|].
    destruct (coerce k value) as [newValue|e] eqn:Hcoerce; [|done].
    rewrite bind_Returns in Hstep.
    destruct (isValidTransactionKey k) eqn:Hcolumn.
    + injection Hstep as <-. intros meta. rewrite lookup_insert_ne by done. apply IH.
    + assert (∃ fields,
                match f1 !! "meta" with
                | Some m => if filter_truthy (Some m) then m else FObject ∅
                | None => FObject ∅
                end = FObject fields
                ∧ ∀ field key, fields !! key = Some field →
                    ∃ value newValue,
                      (key, value) ∈ extra_of query
                      ∧ isValidTransactionKey key = false
                      ∧ isPrototypeAttribute key = false
                      ∧ coerced key value newValue ∧ field = FValue newValue)
        as (fields & Hobject & Hfields).
      { destruct (f1 !! "meta") as [m|] eqn:Hm.
        - destruct (IH m eq_refl) as [[fields ->] Hfields]. simpl. by exists fields.
        - exists ∅. split; [done|]. intros field key. by rewrite lookup_empty. }
      rewrite Hobject in Hstep. simpl in Hstep. injection Hstep as <-.
      intros meta. rewrite lookup_insert_eq.
      intros [= <-]. split; [by eexists|]. intros field key. simpl.
      destruct (decide (key = k)) as [->|Hne].
      * rewrite lookup_insert_eq. intros [= <-]. exists value, newValue.
        split; [done|]. split; [done|]. split; [done|].
        split; [by apply coerce_Returns_coerced | done].
      * rewrite lookup_insert_ne by done. apply Hfields.
  - intros meta Hm. exfalso. destruct (truthy_opt _ || truthy_opt _).
    + destruct Hranged as (range1 & range & _ & _ & ->).
      rewrite lookup_insert_ne, lookup_union_l, Hnone in Hm; [done| |done].
      by rewrite lookup_singleton_ne.
    + subst ranged. rewrite lookup_union_l, Hnone in Hm; [done|].
      by rewrite lookup_singleton_ne.
Qed.

End parseQuery_further.

(** ** The ledger, further *)

Section ledger_further.
Context `{Builtins, TransactionSchema, AccountField, PrototypeGuard, Store, Models}.


Lemma delete_property_comm (k k' : string) (query : Query) :
  delete_property k (delete_property k' query)
  = delete_property k' (delete_property k query).
Proof.
  unfold delete_property. induction query as [|[key value] query IH]; [done|].
  rewrite !filter_cons. simpl.
  destruct (decide (key ≠ k')), (decide (key ≠ k)); rewrite ?filter_cons; simpl;
    rewrite ?decide_True, ?decide_False by done; by rewrite ?IH.
Qed.

Lemma delete_property_idemp (k : string) (query : Query) :
  delete_property k (delete_property k query) = delete_property k query.
Proof.
  unfold delete_property. induction query as [|[key value] query IH]; [done|].
  rewrite !filter_cons. simpl.
  destruct (decide (key ≠ k)); rewrite ?filter_cons; simpl;
    rewrite ?decide_True by done; by rewrite ?IH.
Qed.

(** X11: the first page is the page of a query without [page].  With a
    [perPage] that holds, a [page] that is 1 or that does not hold makes
    [ledger] behave as if the query had no [page]: the same object is
    left, and the same request gives the same outcome. *)
Theorem ledger_first_page (this : Book) (query : Query)
    (populate_paths : option (list string)) (transactions : list ITransaction)
    (page : Value) :
  truthy_opt (get query "perPage") = true →
  get query "page" = Some page →
  truthy page = false ∨ to_number page = 1%float →
  Book_ledger this query populate_paths transactions
  = Book_ledger this (delete_property "page" query) populate_paths transactions.
Proof.
  intros HperPage Hpage Hfirst.
  assert (paginate query = paginate (delete_property "page" query)) as Hpaginate.
  { unfold paginate.
    rewrite get_delete_property, get_delete_property_ne, Hpage by done.
    destruct (get query "perPage") as [perPage|]; [|done]. simpl in HperPage.
    rewrite HperPage.
    rewrite (delete_property_comm "perPage" "page"), delete_property_idemp.
    rewrite (delete_property_comm "page" "perPage").
    destruct (truthy page) eqn:Htruthy; [|done].
    destruct Hfirst as [Hfalse| ->]; [congruence | reflexivity]. }
  unfold Book_ledger. by rewrite Hpaginate.
Qed.

(** X12: whenever [ledger] answers, paginated or not, [total] is the
    number of the transactions that match the filter compiled from the
    query it leaves, and the results are taken, in their order, from
    these transactions, newest first; so there are never more results
    than [total]. *)
Theorem ledger_total (this : Book) (query : Query)
    (populate_paths : option (list string)) (transactions : list ITransaction)
    (result : LedgerResult) :
  (Book_ledger this query populate_paths transactions).2 = Returns result →
  ∃ filterQuery,
    parseQuery (Book_ledger this query populate_paths transactions).1 this
    = Returns filterQuery
    ∧ let matching := filter (fun t => matches filterQuery t = true) transactions in
      total result = length matching
      ∧ results result
          `sublist_of` sorted [("datetime", (-1)%Z); ("timestamp", (-1)%Z)] matching
      ∧ (length (results result) ≤ total result)%nat.
Proof.
  unfold Book_ledger. destruct (paginate query) as [[skip limit] query']. simpl.
  unfold ledger_request.
  destruct (parseQuery query' this) as [filterQuery|e]; [|done]. rewrite !bind_Returns.
  unfold exec, countDocuments.
  cbn [find_filter find_sort find_window fmap option_fmap option_map].
  set (matching := filter (fun t => matches filterQuery t = true) transactions).
  set (found := sorted _ matching).
  assert (length found = length matching) as Hlength
    by apply Permutation_length, sorted_Permutation.
  intros Hexec. exists filterQuery. split; [done|].
  destruct skip as [skip|]; simpl in Hexec.
  - destruct (window skip limit found) as [page|e] eqn:Hwindow; [|done].
    rewrite bind_Returns in Hexec. injection Hexec as <-. simpl.
    apply window_sublist in Hwindow. pose proof (sublist_length _ _ Hwindow) as Hle.
    fold matching. fold found.
    destruct (length matching) as [|n] eqn:Hn; simpl.
    + split; [lia|]. split; [done|]. lia.
    + split; [done|]. split; [done|]. lia.
  - injection Hexec as <-. simpl.
    fold matching. fold found. split; [done|]. split; [done|]. lia.
Qed.

End ledger_further.

(** ** The balance, further *)

Section balance_further.
Context `{Builtins, TransactionSchema, AccountField, PrototypeGuard, Store, Models}.

Lemma last_fmap {A B} (f : A → B) (l : list A) : last (f <$> l) = f <$> last l.
Proof.
  induction l as [|x l IH]; [done|]. destruct l as [|y l]; [done|].
  change (last (f <$> x :: y :: l)) with (last (f <$> y :: l)). by rewrite IH.
Qed.

(** X13: a book whose [balanceSnapshotSec] does not hold (zero) reads no
    snapshot: the balance is the rounded sum over all the transactions
    that match the compiled filter, and [notes] their number.  It still
    asks for a snapshot to be written whenever a transaction matches,
    after the last of them, with no account and an [expireInSec] of
    twice [balanceSnapshotSec]. *)
Theorem balance_snapshots_disabled (this : Book) (query : Query) (now : Js.number)
    (transactions : list ITransaction) (parsedQuery : FilterQuery) :
  Js.truthy_number (balanceSnapshotSec this) = false →
  parseQuery query this = Returns parsedQuery →
  let matched := filter (fun t => matches parsedQuery t = true) transactions in
  let delta := group_sum ((fun t => (credit t - debit t)%float) <$> matched) in
  (matched ≠ [] → is_Some (toFixed delta (precision this))) →
  ∃ result snapshots,
    Book_balance this query now transactions = Returns (result, snapshots)
    ∧ Js.same_number (balance result)
        (match matched with
         | [] => 0%float
         | _ :: _ => rounded delta (precision this)
         end) = true
    ∧ notes result = length matched
    ∧ snapshots
      = match last matched with
        | None => []
        | Some t =>
            [ {| request_book := name this;
                 request_account := None;
                 request_meta := parsedQuery !! "meta";
                 request_transaction := _id t;
                 request_timestamp := Some (timestamp t);
                 request_balance := balance result;
                 expireInSec := (balanceSnapshotSec this * 2)%float |} ]
        end.
Proof.
  intros Hsec Hparse matched delta Hdigits.
  unfold Book_balance. rewrite Hparse, bind_Returns.
  unfold consult_snapshot. rewrite Hsec.
  cbn [liveQuery balanceSnapshot needToDoBalanceSnapshot accountForBalanceSnapshot].
  rewrite aggregate_row. fold matched. fold delta.
  destruct matched as [|t matched'] eqn:Hmatched.
  - eexists _, _. split; [done|]. split; [apply same_number_refl|]. done.
  - destruct Hdigits as [digits Hd]; [done|].
    cbn [aggregated_balance count lastTransactionId lastTimestamp]. rewrite Hd.
    rewrite !last_fmap.
    destruct (last (t :: matched')) as [t'|] eqn:Hlast.
    + eexists _, _. split; [done|]. simpl. unfold rounded. rewrite Hd.
      split; [apply add_zero_l|]. done.
    + by apply last_None in Hlast.
Qed.

(** X14: the clock decides only whether a snapshot is written.  At
    another reading of the clock [balance] fails with the same error or
    returns the same balance and notes; and the snapshot it asks for, if
    it asks for one, is the same. *)
Theorem balance_whatever_the_clock (this : Book) (query : Query) (now now' : Js.number)
    (transactions : list ITransaction) :
  match Book_balance this query now transactions with
  | Throws e => Book_balance this query now' transactions = Throws e
  | Returns (result, snapshots) =>
      ∃ snapshots',
        Book_balance this query now' transactions = Returns (result, snapshots')
        ∧ (snapshots' = snapshots ∨ snapshots' = [] ∨ snapshots = [])
  end.
Proof.
  unfold Book_balance.
  destruct (parseQuery query this) as [parsedQuery|e]; [|done]. rewrite !bind_Returns.
  assert (balanceSnapshot (consult_snapshot this query now' parsedQuery)
          = balanceSnapshot (consult_snapshot this query now parsedQuery)
          ∧ liveQuery (consult_snapshot this query now' parsedQuery)
            = liveQuery (consult_snapshot this query now parsedQuery)
          ∧ accountForBalanceSnapshot (consult_snapshot this query now' parsedQuery)
            = accountForBalanceSnapshot (consult_snapshot this query now parsedQuery))
    as (-> & -> & ->).
  { unfold consult_snapshot. destruct (Js.truthy_number _); [|done].
    by destruct (getBestSnapshot _). }
  destruct (head (aggregate _ transactions)) as [row|];
    [|eexists; split; [done | auto]].
  destruct (toFixed _ _) as [digits|]; [|done].
  destruct (lastTransactionId row) as [id|]; [|eexists; split; [done | auto]].
  destruct (needToDoBalanceSnapshot (consult_snapshot this query now parsedQuery)),
    (needToDoBalanceSnapshot (consult_snapshot this query now' parsedQuery));
    eexists; (split; [done | auto]).
Qed.

Lemma parseQuery_entry_off_datetime (f1 f1' : FilterQuery) (entry : string * Value) :
  (∀ k, k ≠ "datetime" → f1 !! k = f1' !! k) →
  match parseQuery_entry f1 entry, parseQuery_entry f1' entry with
  | Returns f2, Returns f2' => ∀ k, k ≠ "datetime" → f2 !! k = f2' !! k
  | Throws e, Throws e' => e = e'
  | _, _ => False
  end.
Proof.
  intros Hagree. destruct entry as [key value]. unfold parseQuery_entry.
  destruct (isPrototypeAttribute key); [done|].
  destruct (coerce key value) as [newValue|e]; [|done]. rewrite !bind_Returns.
  destruct (isValidTransactionKey key).
  - intros k Hk. destruct (decide (k = key)) as [->|Hne].
    + by rewrite !lookup_insert_eq.
    + rewrite !lookup_insert_ne by done. by apply Hagree.
  - rewrite <- (Hagree "meta") by done.
    destruct (assign _ key _) as [m|e]; [|done]. rewrite !bind_Returns.
    intros k Hk. destruct (decide (k = "meta")) as [->|Hne].
    + by rewrite !lookup_insert_eq.
    + rewrite !lookup_insert_ne by done. by apply Hagree.
Qed.

Lemma parseQuery_loop_off_datetime (extra : Query) (f1 f1' : FilterQuery) :
  (∀ k, k ≠ "datetime" → f1 !! k = f1' !! k) →
  match foldM parseQuery_entry extra f1, foldM parseQuery_entry extra f1' with
  | Returns f2, Returns f2' => ∀ k, k ≠ "datetime" → f2 !! k = f2' !! k
  | Throws e, Throws e' => e = e'
  | _, _ => False
  end.
Proof.
  revert f1 f1'. induction extra as [|entry extra IH]; intros f1 f1' Hagree; [done|].
  rewrite !foldM_cons. pose proof (parseQuery_entry_off_datetime f1 f1' entry Hagree) as Hstep.
  destruct (parseQuery_entry f1 entry) as [f2|e], (parseQuery_entry f1' entry) as [f2'|e'];
    try done.
  rewrite !bind_Returns. by apply IH.
Qed.

(** X15: the snapshot [balance] reads does not depend on the dates of
    the query.  Two queries with the same account and the same other
    keys, whatever their [start_date] and [end_date], are answered from
    the same snapshot. *)
Theorem snapshot_whatever_the_dates (this : Book) (query query' : Query)
    (now : Js.number) (parsedQuery parsedQuery' : FilterQuery) :
  get query "account" = get query' "account" →
  extra_of query = extra_of query' →
  parseQuery query this = Returns parsedQuery →
  parseQuery query' this = Returns parsedQuery' →
  balanceSnapshot (consult_snapshot this query now parsedQuery)
  = balanceSnapshot (consult_snapshot this query' now parsedQuery').
Proof.
  intros Haccount Hextra Hparse Hparse'.
  assert (∀ k, k ≠ "datetime" → parsedQuery !! k = parsedQuery' !! k) as Hagree.
  { revert Hparse Hparse'. unfold parseQuery. rewrite <- Haccount, <- Hextra.
    destruct (parseAccountField _ _) as [accountFields|e]; [|done]. rewrite !bind_Returns.
    set (f0 := accountFields ∪ {[ "book" := FValue (VString (name this)) ]}).
    assert (∀ ranged ranged',
              (∀ k, k ≠ "datetime" → ranged !! k = ranged' !! k) →
              foldM parseQuery_entry (extra_of query) ranged = Returns parsedQuery →
              foldM parseQuery_entry (extra_of query) ranged' = Returns parsedQuery' →
              ∀ k, k ≠ "datetime" → parsedQuery !! k = parsedQuery' !! k) as Hloop.
    { intros ranged ranged' Hranged Hf Hf'.
      pose proof (parseQuery_loop_off_datetime (extra_of query) ranged ranged' Hranged) as Hl.
      by rewrite Hf, Hf' in Hl. }
    destruct (truthy_opt (get query "start_date") || truthy_opt (get query "end_date")),
      (truthy_opt (get query' "start_date") || truthy_opt (get query' "end_date")).
    - destruct (date_bound "$gte" (get query "start_date") _) as [r1|e]; [|done].
      rewrite bind_Returns.
      destruct (date_bound "$lte" (get query "end_date") _) as [r2|e]; [|done].
      rewrite !bind_Returns.
      destruct (date_bound "$gte" (get query' "start_date") _) as [r1'|e]; [|done].
      rewrite bind_Returns.
      destruct (date_bound "$lte" (get query' "end_date") r1') as [r2'|e]; [|done].
      rewrite !bind_Returns. apply Hloop. intros k Hk. by rewrite !lookup_insert_ne.
    - destruct (date_bound "$gte" (get query "start_date") _) as [r1|e]; [|done].
      rewrite bind_Returns.
      destruct (date_bound "$lte" (get query "end_date") r1) as [r2|e]; [|done].
      rewrite !bind_Returns. apply Hloop. intros k Hk. by rewrite !lookup_insert_ne.
    - destruct (date_bound "$gte" (get query' "start_date") _) as [r1'|e]; [|done].
      rewrite !bind_Returns.
      destruct (date_bound "$lte" (get query' "end_date") r1') as [r2'|e]; [|done].
      rewrite !bind_Returns. apply Hloop. intros k Hk. by rewrite !lookup_insert_ne.
    - rewrite !bind_Returns. by apply Hloop. }
  unfold consult_snapshot, joined_account. rewrite <- Haccount.
  rewrite <- !(Hagree "book"), <- !(Hagree "meta") by done.
  destruct (Js.truthy_number _); [|done]. by destruct (getBestSnapshot _).
Qed.

(** X20: a precision that [toFixed] refuses makes [balance] fail.  When
    the query compiles and a transaction matches the filter of the
    aggregation (the compiled one, narrowed to what came after the
    snapshot when one is read) while [toFixed] refuses to print the sum
    with the precision of the book, [balance] throws a [RangeError]. *)
Theorem balance_refused_precision (this : Book) (query : Query) (now : Js.number)
    (transactions : list ITransaction) (parsedQuery : FilterQuery) :
  parseQuery query this = Returns parsedQuery →
  let best :=
    if Js.truthy_number (balanceSnapshotSec this) then
      getBestSnapshot {| key_book := parsedQuery !! "book";
                         key_account := joined_account query;
                         key_meta := parsedQuery !! "meta" |}
    else None in
  let live :=
    match best with
    | Some snapshot =>
        <["_id" := FObject {[ "$gt" := FValue (VObjectId (transaction snapshot)) ]}]>
          parsedQuery
    | None => parsedQuery
    end in
  let matched := filter (fun t => matches live t = true) transactions in
  matched ≠ [] →
  toFixed (group_sum ((fun t => (credit t - debit t)%float) <$> matched)) (precision this)
  = None →
  Book_balance this query now transactions = Throws RangeError.
Proof.
  intros Hparse best live matched Hmatched Hfixed.
  pose proof (consult_snapshot_best this query now parsedQuery) as (Hbest & Hlive & _).
  cbv zeta in Hbest, Hlive. rewrite Hbest in Hlive.
  change (liveQuery (consult_snapshot this query now parsedQuery) = live) in Hlive.
  unfold Book_balance. rewrite Hparse, bind_Returns. cbv zeta.
  rewrite Hlive, aggregate_row. fold matched.
  destruct matched as [|t matched']; [done|].
  cbn [aggregated_balance]. by rewrite Hfixed.
Qed.

End balance_further.

(** ** The constructor and the locks, further *)

(** X16: the constructor reports the first setting it does not accept,
    in the order name, precision, maxAccountPath, balanceSnapshotSec:
    it throws exactly when one is not accepted, and the message names
    the first such. *)
Theorem Book_constructor_first_error (book_name : Js.any) (options : BookOptions) :
  match first_rejected book_name options with
  | Some field =>
      Book_constructor book_name options
      = Throws (BookConstructorError ("Invalid value for " ++ field ++ " provided."))
  | None => ∃ this, Book_constructor book_name options = Returns this
  end.
Proof.
  unfold Book_constructor, first_rejected. rewrite seconds_of_a_day.
  fold (or_default (opt_precision options) 8%float).
  fold (or_default (opt_maxAccountPath options) 3%float).
  fold (or_default (opt_balanceSnapshotSec options) 86400%float).
  destruct book_name as [| |b|n|s|]; simpl; eauto.
  rewrite trim_blank.
  destruct (forallb Js.isWhiteSpace (list_ascii_of_string s)); simpl; eauto.
  destruct (or_default (opt_precision options) 8%float) as [| |b|p|s'|]; simpl; eauto.
  destruct (Js.Number_isInteger p), (PrimFloat.ltb p 0%float); simpl; eauto.
  destruct (or_default (opt_maxAccountPath options) 3%float) as [| |b|m|s'|]; simpl; eauto.
  destruct (Js.Number_isInteger m), (PrimFloat.ltb m 0%float); simpl; eauto.
  destruct (or_default (opt_balanceSnapshotSec options) 86400%float) as [| |b|c|s'|];
    simpl; eauto.
  destruct (PrimFloat.ltb c 0%float); simpl; eauto.
Qed.

Lemma writelockAccounts_revision (this : Book) (accounts : list string)
    (clock : nat → Date) (locks : Locks) (b a : string) :
  let locks' := (Book_writelockAccounts this accounts clock locks).2 in
  (is_Some (locks' !! (b, a))
   ↔ is_Some (locks !! (b, a)) ∨ (b = name this ∧ a ∈ accounts))
  ∧ revision locks' b a
    = (revision locks b a + if decide (b = name this ∧ a ∈ accounts) then 1 else 0)%Z.
Proof.
  simpl. unfold Book_writelockAccounts.
  destruct (decide (b = name this ∧ a ∈ accounts)) as [[-> Ha]|Hno].
  - pose proof Ha as Hin. apply Set_from_elem_of, list_elem_of_lookup in Hin as [i Hi].
    unfold revision at 1.
    rewrite (lock_each_lookup _ _ _ _ _ i a (Set_from_NoDup accounts) Hi).
    split; [|done]. split; [intros _; by right | by eexists].
  - assert (b ≠ name this ∨ a ∉ Set_from accounts) as Hframe.
    { rewrite Set_from_elem_of. destruct (decide (b = name this)); [right|left]; tauto. }
    unfold revision at 1. rewrite (lock_each_frame _ _ _ _ _ _ _ Hframe).
    split; [|unfold revision; lia]. tauto.
Qed.

(** X17: [writelockAccounts] removes no lock and creates locks only for
    the accounts it is given, in its own book: after the call a lock
    exists exactly when it existed before or is the lock of one of the
    accounts in this book. *)
Theorem writelockAccounts_locks (this : Book) (accounts : list string)
    (clock : nat → Date) (locks : Locks) (b a : string) :
  is_Some ((Book_writelockAccounts this accounts clock locks).2 !! (b, a))
  ↔ is_Some (locks !! (b, a)) ∨ (b = name this ∧ a ∈ accounts).
Proof. apply writelockAccounts_revision. Qed.

(** X18: two calls compose: after locking [accounts] and then
    [accounts'], the revision of the lock of an account has grown by one
    for each of the two lists the account is in, however often it is
    listed there, and the revisions of the locks of other books have not
    changed. *)
Theorem writelockAccounts_twice (this : Book) (accounts accounts' : list string)
    (clock clock' : nat → Date) (locks : Locks) (b a : string) :
  let locks' := (Book_writelockAccounts this accounts clock locks).2 in
  let locks'' := (Book_writelockAccounts this accounts' clock' locks').2 in
  revision locks'' b a
  = (revision locks b a
     + (if decide (b = name this ∧ a ∈ accounts) then 1 else 0)
     + (if decide (b = name this ∧ a ∈ accounts') then 1 else 0))%Z.
Proof.
  simpl.
  rewrite (proj2 (writelockAccounts_revision this accounts' clock' _ b a)).
  by rewrite (proj2 (writelockAccounts_revision this accounts clock locks b a)).
Qed.

(** * The sample ledger, further *)

Section sample_queries.
Import Sample.

Ltac decided :=
  match goal with
  | |- ?P => apply (bool_decide_unpack P); vm_compute; exact I
  end.

Ltac computed :=
  lazymatch goal with
  | |- _ = ?y => vm_cast_no_check (@eq_refl _ y)
  end.

Let under_Assets : FilterQuery :=
  {[ "accounts" := FValue (VString "Assets"); "book" := FValue (VString "main") ]}.

Let under_Income : FilterQuery :=
  {[ "accounts" := FValue (VString "Income"); "book" := FValue (VString "main") ]}.

Let for_Assets : FilterQuery := {[ "accounts" := FValue (VString "Assets") ]}.

Let tagged : FilterQuery :=
  <["meta" := FObject {[ "tag" := FValue (VString "x") ]}]> under_Assets.

(** A book that takes no snapshots. *)
Let idle : Book :=
  {| name := "main"; precision := 8; maxAccountPath := 3; balanceSnapshotSec := 0 |}.

Let snapshot_after_1 : Models :=
  models (Some {| snapshot_balance := (-100)%float;
                  transaction := id 1;
                  createdAt := mkDate 1000 |}).

(** The accounts of three paths, parents first, each once. *)
Example listAccounts_of_three :
  Book_listAccounts ["Assets:Cash:USD"; "Assets:Bank"; "Income"; "Assets:Cash"]
  = ["Assets"; "Assets:Cash"; "Assets:Cash:USD"; "Assets:Bank"; "Income"].
Proof. reflexivity. Qed.

Lemma listAccounts_parents_first_witness :
  let results := ["Assets:Cash:USD"; "Assets:Bank"; "Income"; "Assets:Cash"] in
  Book_listAccounts results !! 3%nat = Some "Assets:Bank"
  ∧ within "Assets" "Assets:Bank"
  ∧ ∃ j, (j ≤ 3)%nat ∧ Book_listAccounts results !! j = Some "Assets".
Proof.
  intros results.
  assert (Book_listAccounts results !! 3%nat = Some "Assets:Bank") as Hlisted
    by reflexivity.
  assert (within "Assets" "Assets:Bank") as Hwithin by (right; by exists "Bank").
  split; [exact Hlisted|]. split; [exact Hwithin|].
  exact (listAccounts_parents_first results 3 "Assets:Bank" "Assets" Hlisted Hwithin).
Defined.

Lemma parseQuery_book_witness :
  let query := [("account", VString "Assets"); ("tag", VString "x")] in
  parseAccountField (get query "account") (maxAccountPath main) = Returns for_Assets
  ∧ for_Assets !! "book" = None
  ∧ ("book" ∉ keys query)
  ∧ parseQuery query main = Returns tagged
  ∧ tagged !! "book" = Some (FValue (VString (name main))).
Proof.
  intros query.
  assert (parseAccountField (get query "account") (maxAccountPath main) = Returns for_Assets)
    as Haccount by computed.
  assert (for_Assets !! "book" = None) as Hnone by computed.
  assert ("book" ∉ keys query) as Hkey by decided.
  assert (parseQuery query main = Returns tagged) as Hparse by computed.
  split; [exact Haccount|]. split; [exact Hnone|]. split; [exact Hkey|].
  split; [exact Hparse|].
  exact (parseQuery_book main query for_Assets tagged Haccount Hnone Hkey Hparse).
Defined.

(** A query with a [start_date] only: the range has a lower bound and no
    upper bound. *)
Lemma date_range_bounds_witness :
  let query := [("account", VString "Assets"); ("start_date", VString "2024-05-01")] in
  let filterQuery :=
    <["datetime" := FObject {[ "$gte" := FValue (VDate (mkDate 1714521600000)) ]}]>
      under_Assets in
  parseAccountField (get query "account") (maxAccountPath main) = Returns for_Assets
  ∧ ("datetime" ∉ keys query)
  ∧ parseQuery query main = Returns filterQuery
  ∧ ∃ range,
      filterQuery !! "datetime" = Some (FObject range)
      ∧ (∃ v d, get query "start_date" = Some v ∧ parseDateField v = Returns d
                ∧ range !! "$gte" = Some (FValue (VDate d)))
      ∧ range !! "$lte" = None
      ∧ ∀ operator, operator ≠ "$gte" → operator ≠ "$lte" → range !! operator = None.
Proof.
  intros query filterQuery.
  assert (parseAccountField (get query "account") (maxAccountPath main) = Returns for_Assets)
    as Haccount by computed.
  assert ("datetime" ∉ keys query) as Hkey by decided.
  assert (parseQuery query main = Returns filterQuery) as Hparse by computed.
  split; [exact Haccount|]. split; [exact Hkey|]. split; [exact Hparse|].
  exact (date_range_bounds main query for_Assets filterQuery Haccount Hkey Hparse).
Defined.

Lemma refused_date_fails_witness :
  let query := [("account", VString "Assets"); ("end_date", VString "soon")] in
  parseAccountField (get query "account") (maxAccountPath main) = Returns for_Assets
  ∧ truthy (VString "soon") = true
  ∧ parseDateField (VString "soon") = Throws InvalidDateError
  ∧ get query "end_date" = Some (VString "soon")
  ∧ parseQuery query main = Throws InvalidDateError.
Proof.
  intros query.
  assert (parseAccountField (get query "account") (maxAccountPath main) = Returns for_Assets)
    as Haccount by computed.
  assert (truthy (VString "soon") = true) as Htruthy by computed.
  assert (parseDateField (VString "soon") = Throws InvalidDateError) as Hrefused by computed.
  assert (get query "end_date" = Some (VString "soon")) as Hend by computed.
  split; [exact Haccount|]. split; [exact Htruthy|]. split; [exact Hrefused|].
  split; [exact Hend|].
  apply (proj2 (refused_date_fails main query for_Assets (VString "soon") InvalidDateError
                  Haccount Htruthy Hrefused) Hend).
  intros s Hs. discriminate Hs.
Defined.

Lemma malformed_identifier_fails_witness :
  let query := [("account", VString "Assets"); ("_journal", VString "xyz")] in
  ("_journal", VString "xyz") ∈ extra_of query
  ∧ isPrototypeAttribute "_journal" = false
  ∧ isTransactionObjectIdKey "_journal" = true
  ∧ ObjectId_new "xyz" = None
  ∧ ∃ e, parseQuery query main = Throws e.
Proof.
  intros query.
  assert (("_journal", VString "xyz") ∈ extra_of query) as Hin.
  { apply list_elem_of_filter. split; [decided|]. right. left. }
  assert (isPrototypeAttribute "_journal" = false) as Hguard by computed.
  assert (isTransactionObjectIdKey "_journal" = true) as Hcolumn by computed.
  assert (ObjectId_new "xyz" = None) as Hnew by computed.
  split; [exact Hin|]. split; [exact Hguard|]. split; [exact Hcolumn|].
  split; [exact Hnew|].
  exact (malformed_identifier_fails main query "_journal" "xyz" Hin Hguard Hcolumn Hnew).
Defined.

Lemma filter_fields_asked_for_witness :
  let query := [("account", VString "Assets"); ("tag", VString "x")] in
  parseAccountField (get query "account") (maxAccountPath main) = Returns for_Assets
  ∧ parseQuery query main = Returns tagged
  ∧ is_Some (tagged !! "meta")
  ∧ (is_Some (for_Assets !! "meta")
     ∨ "meta" = "book"
     ∨ ("meta" = "datetime"
        ∧ truthy_opt (get query "start_date") || truthy_opt (get query "end_date") = true)
     ∨ ("meta" = "meta"
        ∧ ∃ key, key ∈ keys (extra_of query)
                 ∧ isValidTransactionKey key = false ∧ isPrototypeAttribute key = false)
     ∨ ("meta" ∈ keys (extra_of query)
        ∧ isValidTransactionKey "meta" = true ∧ isPrototypeAttribute "meta" = false)).
Proof.
  intros query.
  assert (parseAccountField (get query "account") (maxAccountPath main) = Returns for_Assets)
    as Haccount by computed.
  assert (parseQuery query main = Returns tagged) as Hparse by computed.
  assert (is_Some (tagged !! "meta")) as Hmeta.
  { exists (FObject {[ "tag" := FValue (VString "x") ]}). computed. }
  split; [exact Haccount|]. split; [exact Hparse|]. split; [exact Hmeta|].
  exact (filter_fields_asked_for main query for_Assets tagged "meta" Haccount Hparse Hmeta).
Defined.

Lemma meta_fields_asked_for_witness :
  let query := [("account", VString "Assets"); ("tag", VString "x")] in
  let meta := FObject {[ "tag" := FValue (VString "x") ]} in
  parseAccountField (get query "account") (maxAccountPath main) = Returns for_Assets
  ∧ for_Assets !! "meta" = None
  ∧ ("meta" ∉ keys query)
  ∧ parseQuery query main = Returns tagged
  ∧ tagged !! "meta" = Some meta
  ∧ field_of meta "tag" = Some (FValue (VString "x"))
  ∧ ∃ value newValue,
      ("tag", value) ∈ extra_of query
      ∧ isValidTransactionKey "tag" = false ∧ isPrototypeAttribute "tag" = false
      ∧ coerced "tag" value newValue ∧ FValue (VString "x") = FValue newValue.
Proof.
  intros query meta.
  assert (parseAccountField (get query "account") (maxAccountPath main) = Returns for_Assets)
    as Haccount by computed.
  assert (for_Assets !! "meta" = None) as Hnone by computed.
  assert ("meta" ∉ keys query) as Hkey by decided.
  assert (parseQuery query main = Returns tagged) as Hparse by computed.
  assert (tagged !! "meta" = Some meta) as Hmeta by computed.
  assert (field_of meta "tag" = Some (FValue (VString "x"))) as Hfield by computed.
  split; [exact Haccount|]. split; [exact Hnone|]. split; [exact Hkey|].
  split; [exact Hparse|]. split; [exact Hmeta|]. split; [exact Hfield|].
  exact (meta_fields_asked_for main query for_Assets tagged meta (FValue (VString "x")) "tag"
           Haccount Hnone Hkey Hparse Hmeta Hfield).
Defined.


Lemma ledger_first_page_witness :
  let query := [("account", VString "Income"); ("perPage", VNumber 2); ("page", VNumber 1)] in
  truthy_opt (get query "perPage") = true
  ∧ get query "page" = Some (VNumber 1)
  ∧ to_number (VNumber 1) = 1%float
  ∧ Book_ledger main query None ledger_2024
    = Book_ledger main (delete_property "page" query) None ledger_2024
  ∧ Book_ledger main query None ledger_2024
    = ([("account", VString "Income")],
       Returns {| results := [posting 6 "Income:Sales" 0 7 "2024-12-01";
                              posting 4 "Income:Sales" 0 25 "2024-06-01"];
                  total := 3 |}).
Proof.
  intros query.
  assert (truthy_opt (get query "perPage") = true) as HperPage by computed.
  assert (get query "page" = Some (VNumber 1)) as Hpage by computed.
  assert (to_number (VNumber 1) = 1%float) as Hone by computed.
  split; [exact HperPage|]. split; [exact Hpage|]. split; [exact Hone|]. split; [|computed].
  exact (ledger_first_page main query None ledger_2024 (VNumber 1) HperPage Hpage
           (or_intror Hone)).
Defined.

Lemma ledger_total_witness :
  let query := [("account", VString "Income"); ("perPage", VNumber 2)] in
  let result :=
    {| results := [posting 6 "Income:Sales" 0 7 "2024-12-01";
                   posting 4 "Income:Sales" 0 25 "2024-06-01"];
       total := 3 |} in
  (Book_ledger main query None ledger_2024).2 = Returns result
  ∧ ∃ filterQuery,
      parseQuery (Book_ledger main query None ledger_2024).1 main = Returns filterQuery
      ∧ let matching := filter (fun t => matches filterQuery t = true) ledger_2024 in
        total result = length matching
        ∧ results result
            `sublist_of` sorted [("datetime", (-1)%Z); ("timestamp", (-1)%Z)] matching
        ∧ (length (results result) ≤ total result)%nat.
Proof.
  intros query result.
  assert ((Book_ledger main query None ledger_2024).2 = Returns result) as Hledger
    by computed.
  split; [exact Hledger|].
  exact (ledger_total main query None ledger_2024 result Hledger).
Defined.

(** The book that takes no snapshots still asks for one to be written,
    with no account, to expire at once. *)
Lemma balance_snapshots_disabled_witness :
  let query := [("account", VString "Assets")] in
  Js.truthy_number (balanceSnapshotSec idle) = false
  ∧ parseQuery query idle = Returns under_Assets
  ∧ Book_balance (H4 := snapshot_after_1) idle query 0 ledger_2024
    = Returns ({| balance := -132; notes := 3 |},
               [ {| request_book := "main";
                    request_account := None;
                    request_meta := None;
                    request_transaction := id 5;
                    request_timestamp := Some (mkDate (parse_date "2024-12-01"));
                    request_balance := -132;
                    expireInSec := 0 |} ])
  ∧ ∃ result snapshots,
      Book_balance (H4 := snapshot_after_1) idle query 0 ledger_2024
      = Returns (result, snapshots)
      ∧ notes result
        = length (filter (fun t => matches under_Assets t = true) ledger_2024).
Proof.
  intros query.
  assert (Js.truthy_number (balanceSnapshotSec idle) = false) as Hidle by computed.
  assert (parseQuery query idle = Returns under_Assets) as Hparse by computed.
  split; [exact Hidle|]. split; [exact Hparse|]. split; [computed|].
  destruct (balance_snapshots_disabled (H4 := snapshot_after_1) idle query 0 ledger_2024
              under_Assets Hidle Hparse)
    as (result & snapshots & Hbalance & _ & Hnotes & _).
  - intros _. exists "-132.00000000". computed.
  - exists result, snapshots. split; [exact Hbalance | exact Hnotes].
Defined.

(** The constructor accepts a precision of 101 digits, which [toFixed]
    refuses: the balance of an account with postings after the snapshot
    cannot be asked. *)
Lemma balance_refused_precision_witness :
  let precise :=
    {| name := "main"; precision := 101; maxAccountPath := 3; balanceSnapshotSec := 60 |} in
  let query := [("account", VString "Income")] in
  let live :=
    <["_id" := FObject {[ "$gt" := FValue (VObjectId (id 1)) ]}]> under_Income in
  Book_constructor (Js.Str "main")
    {| opt_precision := Js.Number 101; opt_maxAccountPath := Js.Undefined;
       opt_balanceSnapshotSec := Js.Number 60 |}
  = Returns precise
  ∧ parseQuery query precise = Returns under_Income
  ∧ filter (fun t => matches live t = true) ledger_2024
    = [posting 2 "Income:Sales" 0 100 "2024-01-01";
       posting 4 "Income:Sales" 0 25 "2024-06-01";
       posting 6 "Income:Sales" 0 7 "2024-12-01"]
  ∧ toFixed 132 101 = None
  ∧ Book_balance (H4 := snapshot_after_1) precise query 0 ledger_2024 = Throws RangeError.
Proof.
  intros precise query live.
  assert (parseQuery query precise = Returns under_Income) as Hparse by computed.
  split; [computed|]. split; [exact Hparse|]. split; [computed|]. split; [computed|].
  apply (balance_refused_precision (H4 := snapshot_after_1) precise query 0 ledger_2024
           under_Income Hparse).
  - cbv zeta.
    match goal with
    | |- ?matched ≠ [] =>
        assert (matched = [posting 2 "Income:Sales" 0 100 "2024-01-01";
                           posting 4 "Income:Sales" 0 25 "2024-06-01";
                           posting 6 "Income:Sales" 0 7 "2024-12-01"]) as -> by computed
    end.
    discriminate.
  - computed.
Defined.

Lemma snapshot_whatever_the_dates_witness :
  let query := [("account", VString "Assets")] in
  let query' := [("account", VString "Assets"); ("start_date", VString "2024-05-01")] in
  let parsedQuery' :=
    <["datetime" := FObject {[ "$gte" := FValue (VDate (mkDate 1714521600000)) ]}]>
      under_Assets in
  get query "account" = get query' "account"
  ∧ extra_of query = extra_of query'
  ∧ parseQuery query main = Returns under_Assets
  ∧ parseQuery query' main = Returns parsedQuery'
  ∧ balanceSnapshot (consult_snapshot (H4 := snapshot_after_1) main query 0 under_Assets)
    = balanceSnapshot (consult_snapshot (H4 := snapshot_after_1) main query' 0 parsedQuery').
Proof.
  intros query query' parsedQuery'.
  assert (get query "account" = get query' "account") as Haccount by computed.
  assert (extra_of query = extra_of query') as Hextra by computed.
  assert (parseQuery query main = Returns under_Assets) as Hparse by computed.
  assert (parseQuery query' main = Returns parsedQuery') as Hparse' by computed.
  split; [exact Haccount|]. split; [exact Hextra|]. split; [exact Hparse|].
  split; [exact Hparse'|].
  exact (snapshot_whatever_the_dates (H4 := snapshot_after_1) main query query' 0
           under_Assets parsedQuery' Haccount Hextra Hparse Hparse').
Defined.

End sample_queries.
